(** * generate_icon.py: the notification bell icon renderer

    A shallow embedding of [src/generate_icon.py].  The script has one
    function, [create_notification_bell_icon], which allocates a canvas,
    issues six drawing calls whose coordinates are integer fractions of
    [size], creates the output directory, saves the canvas as a PNG and
    prints two lines.

    Python integers are unbounded, so they are [Z]; [//] with a positive
    divisor is floor division, which is [Z.div].  The imaging library and
    the operating system are collaborators of the script, not part of it:
    they are modelled by the interfaces the script uses (module [PIL] and
    module [OS] below). *)

From stdpp Require Import base numbers strings list gmap pretty.
From Stdlib Require Import ZArith Lia Ascii.

Open Scope Z_scope.

(** ** Exceptions and results *)

(** The Python exceptions that the modelled calls can raise.  [OSError]
    is an operating system error without a class of its own; the one met
    here is "file name too long". *)
Inductive exn : Type :=
| ValueError
| FileNotFoundError
| FileExistsError
| NotADirectoryError
| IsADirectoryError
| OSError.

Global Instance exn_eq_dec : EqDecision exn.
Proof. solve_decision. Defined.

(** A computation that either returns a value or raises. *)
Inductive result (A : Type) : Type :=
| Ok (a : A)
| Raise (e : exn).
Arguments Ok {A} a.
Arguments Raise {A} e.

Global Instance result_ret : MRet result := λ A a, Ok a.
Global Instance result_bind : MBind result := λ A B f r,
  match r with
  | Ok a => f a
  | Raise e => Raise e
  end.

Definition succeeded {A} (r : result A) : bool :=
  match r with Ok _ => true | Raise _ => false end.

(** ** The operating system, as the script uses it

    A POSIX file system without symbolic links and without permissions: a
    finite map from absolute locations (the names from the root down) to
    nodes.  The root is a directory and is not stored; in the worlds of
    interest the working directory is a directory too.  Path strings are
    kept as the script passes them; [dirname] follows [posixpath.dirname]
    character by character.  A string stands for the Python string with
    the same character codes, and a file name is its UTF-8 encoding.  What
    the script does not touch (permissions, links, disk space) is left
    out. *)

Module OS.

(** *** Path strings *)

Definition is_sep (c : ascii) : bool := bool_decide (c = "/"%char).

(** [(p[:i], p[i:])] for [i = p.rfind('/') + 1]. *)
Fixpoint rsplit_sep (p : string) : string * string :=
  match p with
  | EmptyString => (EmptyString, EmptyString)
  | String c s =>
      let '(h, t) := rsplit_sep s in
      if is_sep c then (String c h, t)
      else match h with
           | EmptyString => (EmptyString, String c t)
           | _ => (String c h, t)
           end
  end.

(** [s.rstrip('/')]. *)
Fixpoint rstrip_sep (s : string) : string :=
  match s with
  | EmptyString => EmptyString
  | String c r =>
      match rstrip_sep r with
      | EmptyString => if is_sep c then EmptyString else String c EmptyString
      | r' => String c r'
      end
  end.

(** [s == '/' * len(s)]. *)
Fixpoint all_sep (s : string) : bool :=
  match s with
  | EmptyString => true
  | String c r => is_sep c && all_sep r
  end.

Definition nonempty (s : string) : bool :=
  match s with EmptyString => false | _ => true end.

(** [os.path.dirname]. *)
Definition dirname (p : string) : string :=
  let head := fst (rsplit_sep p) in
  if nonempty head && negb (all_sep head) then rstrip_sep head else head.

(** [os.path.basename]. *)
Definition basename (p : string) : string := snd (rsplit_sep p).

Definition isabs (p : string) : bool :=
  match p with String c _ => is_sep c | EmptyString => false end.

(** Whether the path contains a separator at all. *)
Fixpoint has_sep (p : string) : bool :=
  match p with
  | EmptyString => false
  | String c s => is_sep c || has_sep s
  end.

(** A path with a NUL character is refused by every call of the [os]
    module and by [open], before the operating system sees it. *)
Definition is_nul (c : ascii) : bool := bool_decide (c = "000"%char).

Fixpoint has_nul (s : string) : bool :=
  match s with
  | EmptyString => false
  | String c r => is_nul c || has_nul r
  end.

(** The length in bytes of the UTF-8 encoding: a character code below 128
    takes one byte, the others (below 256) take two. *)
Definition char_bytes (c : ascii) : Z :=
  match c with
  | Ascii _ _ _ _ _ _ _ false => 1
  | Ascii _ _ _ _ _ _ _ true => 2
  end.

Fixpoint encoded_length (s : string) : Z :=
  match s with
  | EmptyString => 0
  | String c r => char_bytes c + encoded_length r
  end.

(** The limits of the file system: a name has at most [NAME_MAX] bytes,
    a path fewer than [PATH_MAX]. *)
Definition NAME_MAX : Z := 255.
Definition PATH_MAX : Z := 4096.

Definition too_long (n : string) : bool := NAME_MAX <? encoded_length n.

(** Put character [c] in front of the first field. *)
Definition cons_char (c : ascii) (l : list string) : list string :=
  match l with
  | [] => [String c EmptyString]
  | w :: ws => String c w :: ws
  end.

(** [p.split('/')]. *)
Fixpoint split_sep (p : string) : list string :=
  match p with
  | EmptyString => [EmptyString]
  | String c s =>
      if is_sep c then EmptyString :: split_sep s
      else cons_char c (split_sep s)
  end.

(** The names path resolution goes through: repeated and trailing
    slashes contribute none. *)
Definition names (p : string) : list string :=
  filter (λ n, nonempty n = true) (split_sep p).

(** The names of a path, each with the length in bytes of the path up to
    the end of that name. *)
Fixpoint locate_fields (pos : Z) (fs : list string) : list (string * Z) :=
  match fs with
  | [] => []
  | f :: rest =>
      let stop := pos + encoded_length f in
      (if nonempty f then [(f, stop)] else [])
      ++ locate_fields (stop + 1) rest
  end.

Definition located (p : string) : list (string * Z) :=
  locate_fields 0 (split_sep p).

(** What every system call does with a path before it resolves it. *)
Definition check_path (p : string) : result unit :=
  if has_nul p then Raise ValueError
  else if negb (nonempty p) then Raise FileNotFoundError
  else if PATH_MAX <=? encoded_length p then Raise OSError
  else Ok ().

(** A path the file system takes: no NUL, short enough, and so is each of
    its names. *)
Definition portable (p : string) : bool :=
  negb (has_nul p) && (encoded_length p <? PATH_MAX)
  && forallb (λ n, negb (too_long n)) (names p).

(** *** The file tree *)

Inductive node : Type :=
| Dir
| File (data : list Byte.byte).

Abbreviation location := (list string).

Record world : Type := mkWorld {
  tree : gmap location node;
  cwd : location;
  stdout : list string
}.

Definition node_at (t : gmap location node) (k : location) : option node :=
  match k with
  | [] => Some Dir
  | _ => t !! k
  end.

Definition is_dir (t : gmap location node) (k : location) : bool :=
  match node_at t k with Some Dir => true | _ => false end.

Definition is_file (t : gmap location node) (k : location) : bool :=
  match node_at t k with Some (File _) => true | _ => false end.

Definition not_file (t : gmap location node) (k : location) : Prop :=
  ∀ d, node_at t k ≠ Some (File d).

Definition is_dots (n : string) : bool :=
  bool_decide (n = ".") || bool_decide (n = "..").

(** One step of path resolution from directory [cur]. *)
Definition step (cur : location) (n : string) : location :=
  if bool_decide (n = "") || bool_decide (n = ".") then cur
  else if bool_decide (n = "..") then removelast cur
  else cur ++ [n].

(** Where resolution of path [p] starts. *)
Definition origin (w : world) (p : string) : location :=
  if isabs p then [] else cwd w.

(** The locations resolution passes through after the starting one. *)
Fixpoint visited (cur : location) (ns : list string) : list location :=
  match ns with
  | [] => []
  | n :: rest => step cur n :: visited (step cur n) rest
  end.

Definition resolve (cur : location) (ns : list string) : location :=
  fold_left step ns cur.

(** For an output path [p]: the locations on the way to its directory,
    the directory itself and the location of the file. *)
Definition way (w : world) (p : string) : list location :=
  visited (origin w p) (names (dirname p)).
Definition directory (w : world) (p : string) : location :=
  resolve (origin w p) (names (dirname p)).
Definition target (w : world) (p : string) : location :=
  directory w p ++ [basename p].

(** Resolution through existing directories: [cur] and every location
    reached from it must be a directory, and a directory is not searched
    for a name that is too long. *)
Fixpoint walk_dirs (t : gmap location node) (cur : location)
    (ns : list string) : result location :=
  match node_at t cur with
  | Some Dir =>
      match ns with
      | [] => Ok cur
      | n :: rest =>
          if too_long n then Raise OSError
          else walk_dirs t (step cur n) rest
      end
  | Some (File _) => Raise NotADirectoryError
  | None => Raise FileNotFoundError
  end.

(** What [mkdir] raises for a path ending in name [n] at byte [stop],
    whatever the tree holds. *)
Definition refusal (n : string) (stop : Z) : option exn :=
  if has_nul n then Some ValueError
  else if PATH_MAX <=? stop then Some OSError
  else None.

(** A name [mkdir] goes on to look up in the tree. *)
Definition accepted (e : string * Z) : bool :=
  match refusal (fst e) (snd e) with
  | None => negb (too_long (fst e))
  | Some _ => false
  end.

(** The directory walk of [os.makedirs(name, exist_ok=True)]: a missing
    directory is created, an existing one is entered, anything else in
    the way is an error.  Directories created before the error stay. *)
Fixpoint mkwalk (t : gmap location node) (cur : location)
    (ns : list (string * Z)) : result unit * gmap location node :=
  match ns with
  | [] => (Ok (), t)
  | (n, stop) :: rest =>
      match refusal n stop with
      | Some e => (Raise e, t)
      | None =>
          if too_long n then (Raise OSError, t)
          else
            let next := step cur n in
            match node_at t next with
            | None => mkwalk (<[next := Dir]> t) next rest
            | Some Dir => mkwalk t next rest
            | Some (File _) =>
                (Raise (match rest with
                        | [] => FileExistsError
                        | (n', stop') :: _ =>
                            match refusal n' stop' with
                            | Some e => e
                            | None => NotADirectoryError
                            end
                        end), t)
            end
      end
  end.

(** Opening [p] with mode ["w+b"]: where the file is, or will be. *)
Definition open_target (t : gmap location node) (start : location)
    (p : string) : result location :=
  check_path p;;
  dir ← walk_dirs t start (removelast (names p));
  match last (names p) with
  | None => Raise IsADirectoryError
  | Some n =>
      if negb (nonempty (basename p)) || is_dots n
      then Raise IsADirectoryError
      else if too_long n then Raise OSError
      else match t !! (dir ++ [n]) with
           | Some Dir => Raise IsADirectoryError
           | _ => Ok (dir ++ [n])
           end
  end.

(** Opening [p] with mode ["w+b"] and writing [data]: the file is created
    or truncated. *)
Definition write_file (t : gmap location node) (start : location)
    (p : string) (data : list Byte.byte) : result (gmap location node) :=
  k ← open_target t start p;
  Ok (<[k := File data]> t).

(** Opening [p] with mode ["rb"] and reading it whole. *)
Definition read_file (t : gmap location node) (start : location)
    (p : string) : result (list Byte.byte) :=
  check_path p;;
  dir ← walk_dirs t start (removelast (names p));
  (
    match last (names p) with
    | None => Raise IsADirectoryError
    | Some n =>
        match node_at t (step dir n) with
        | Some (File data) =>
            if nonempty (basename p) then Ok data
            else Raise NotADirectoryError
        | Some Dir => Raise IsADirectoryError
        | None => Raise FileNotFoundError
        end
    end).

(** *** Effectful computations: a state and exception monad *)

Definition M (A : Type) : Type := world → result A * world.

Global Instance M_ret : MRet M := λ A a w, (Ok a, w).
Global Instance M_bind : MBind M := λ A B f m w,
  match m w with
  | (Ok a, w') => f a w'
  | (Raise e, w') => (Raise e, w')
  end.

Definition lift {A} (r : result A) : M A := λ w, (r, w).

Definition with_tree (w : world) (t : gmap location node) : world :=
  mkWorld t (cwd w) (stdout w).

(** [os.makedirs(name, exist_ok=True)]. *)
Definition makedirs (name : string) : M unit := λ w,
  if negb (nonempty name) then (Raise FileNotFoundError, w)
  else
    let '(r, t) := mkwalk (tree w) (origin w name) (located name) in
    (r, with_tree w t).

Definition read (w : world) (p : string) : result (list Byte.byte) :=
  read_file (tree w) (origin w p) p.

(** [print(s)]: one line on standard output. *)
Definition print (s : string) : M unit := λ w,
  (Ok (), mkWorld (tree w) (cwd w) (stdout w ++ [s])).

End OS.

(** ** The imaging library, as the script uses it *)

Module PIL.

Definition point : Type := Z * Z.
Definition box : Type := point * point.
Definition color : Type := Z * Z * Z * Z.

(** The [fill] argument of a drawing call: a colour tuple or a colour
    name such as ['white']. *)
Inductive ink : Type :=
| RGBA (c : color)
| Named (name : string).

(** A drawing primitive with the arguments it was called with. *)
Inductive shape : Type :=
| rounded_rectangle (xy : box) (radius : Z) (fill : ink)
| polygon (xy : list point) (fill : ink)
| rectangle (xy : box) (fill : ink)
| ellipse (xy : box) (fill : ink).

(** The canvas.  Rasterisation belongs to the library, so a canvas is
    represented by what determines its pixels: the mode, the size, the
    colour it was allocated with and the primitives painted on it, oldest
    first. *)
Record Image : Type := mkImage {
  mode : string;
  size : Z * Z;
  ground : color;
  drawn : list shape
}.

Definition width (im : Image) : Z := fst (size im).
Definition height (im : Image) : Z := snd (size im).

(** A canvas without pixels. *)
Definition is_empty (im : Image) : bool :=
  (width im =? 0) || (height im =? 0).

(** [Image.new(mode, size, color)]: negative dimensions are refused. *)
Definition new (m : string) (sz : Z * Z) (c : color) : result Image :=
  if (fst sz <? 0) || (snd sz <? 0) then Raise ValueError
  else Ok (mkImage m sz c []).

(** [getpixel] on a canvas nothing was painted on yet; [None] stands for
    the [IndexError] outside the canvas. *)
Definition getpixel_blank (im : Image) (x y : Z) : option color :=
  if (0 <=? x) && (x <? width im) && (0 <=? y) && (y <? height im)
  then Some (ground im) else None.

Definition paint (im : Image) (s : shape) : Image :=
  mkImage (mode im) (size im) (ground im) (drawn im ++ [s]).

(** The library refuses a bounding box whose second corner lies left of
    or above the first. *)
Definition ordered (xy : box) : bool :=
  let '((x0, y0), (x1, y1)) := xy in (x0 <=? x1) && (y0 <=? y1).

Definition draw_rounded_rectangle (im : Image) (xy : box) (radius : Z)
    (fill : ink) : result Image :=
  if ordered xy then Ok (paint im (rounded_rectangle xy radius fill))
  else Raise ValueError.

Definition draw_polygon (im : Image) (xy : list point) (fill : ink)
    : result Image :=
  Ok (paint im (polygon xy fill)).

Definition draw_rectangle (im : Image) (xy : box) (fill : ink)
    : result Image :=
  if ordered xy then Ok (paint im (rectangle xy fill))
  else Raise ValueError.

Definition draw_ellipse (im : Image) (xy : box) (fill : ink)
    : result Image :=
  if ordered xy then Ok (paint im (ellipse xy fill))
  else Raise ValueError.

(** The coordinates a primitive was given. *)
Definition coordinates (s : shape) : list point :=
  match s with
  | rounded_rectangle (p, q) _ _ => [p; q]
  | polygon pts _ => pts
  | rectangle (p, q) _ => [p; q]
  | ellipse (p, q) _ => [p; q]
  end.

(** Centre and radii of the ellipse inscribed in a bounding box. *)
Definition box_center (xy : box) : point :=
  let '((x0, y0), (x1, y1)) := xy in ((x0 + x1) / 2, (y0 + y1) / 2).
Definition box_radii (xy : box) : Z * Z :=
  let '((x0, y0), (x1, y1)) := xy in ((x1 - x0) / 2, (y1 - y0) / 2).

End PIL.

(** ** Geometry: the local variables of the script, as functions of [size] *)

Definition corner_radius (size : Z) : Z := size / 5.
Definition bg_color : PIL.color := (59, 130, 246, 255).

Definition center_x (size : Z) : Z := size / 2.
Definition center_y (size : Z) : Z := size / 2.
Definition bell_width (size : Z) : Z := size / 3.
Definition bell_height (size : Z) : Z := size / 3.

Definition bell_top_y (size : Z) : Z := center_y size - bell_height size / 2.
Definition bell_bottom_y (size : Z) : Z := center_y size + bell_height size / 4.
Definition bell_left_x (size : Z) : Z := center_x size - bell_width size / 2.
Definition bell_right_x (size : Z) : Z := center_x size + bell_width size / 2.

Definition bell_points (size : Z) : list PIL.point :=
  [ (center_x size - bell_width size / 3, bell_top_y size);
    (center_x size + bell_width size / 3, bell_top_y size);
    (bell_right_x size, bell_bottom_y size);
    (bell_left_x size, bell_bottom_y size) ].

Definition handle_width (size : Z) : Z := bell_width size / 6.
Definition handle_height (size : Z) : Z := bell_height size / 6.
Definition handle_y (size : Z) : Z := bell_top_y size - handle_height size.

Definition rim_height (size : Z) : Z := bell_height size / 15.

Definition clapper_radius (size : Z) : Z := bell_width size / 8.
Definition clapper_y (size : Z) : Z :=
  bell_bottom_y size + clapper_radius size + rim_height size * 2.

Definition dot_radius (size : Z) : Z := size / 12.
Definition dot_x (size : Z) : Z :=
  center_x size + bell_width size / 2 + dot_radius size / 2.
Definition dot_y (size : Z) : Z :=
  center_y size - bell_height size / 2 - dot_radius size / 2.
Definition dot_color : PIL.color := (239, 68, 68, 255).

(** The bounding boxes handed to the drawing calls. *)
Definition background_box (size : Z) : PIL.box := ((0, 0), (size, size)).
Definition handle_box (size : Z) : PIL.box :=
  ((center_x size - handle_width size / 2, handle_y size),
   (center_x size + handle_width size / 2, bell_top_y size)).
Definition rim_box (size : Z) : PIL.box :=
  ((bell_left_x size, bell_bottom_y size),
   (bell_right_x size, bell_bottom_y size + rim_height size)).
Definition clapper_box (size : Z) : PIL.box :=
  ((center_x size - clapper_radius size, clapper_y size - clapper_radius size),
   (center_x size + clapper_radius size, clapper_y size + clapper_radius size)).
Definition dot_box (size : Z) : PIL.box :=
  ((dot_x size - dot_radius size, dot_y size - dot_radius size),
   (dot_x size + dot_radius size, dot_y size + dot_radius size)).

(** ** The drawing part of [create_notification_bell_icon] (lines 14-75) *)

Definition blank_canvas (size : Z) : result PIL.Image :=
  PIL.new "RGBA" (size, size) (0, 0, 0, 0).

Definition render (size : Z) : result PIL.Image :=
  img ← blank_canvas size;
  img ← PIL.draw_rounded_rectangle img (background_box size)
          (corner_radius size) (PIL.RGBA bg_color);
  img ← PIL.draw_polygon img (bell_points size) (PIL.Named "white");
  img ← PIL.draw_rectangle img (handle_box size) (PIL.Named "white");
  img ← PIL.draw_rectangle img (rim_box size) (PIL.Named "white");
  img ← PIL.draw_ellipse img (clapper_box size) (PIL.Named "white");
  PIL.draw_ellipse img (dot_box size) (PIL.RGBA dot_color).

(** The primitives of the icon in painting order. *)
Definition icon_shapes (size : Z) : list PIL.shape :=
  [ PIL.rounded_rectangle (background_box size) (corner_radius size)
      (PIL.RGBA bg_color);
    PIL.polygon (bell_points size) (PIL.Named "white");
    PIL.rectangle (handle_box size) (PIL.Named "white");
    PIL.rectangle (rim_box size) (PIL.Named "white");
    PIL.ellipse (clapper_box size) (PIL.Named "white");
    PIL.ellipse (dot_box size) (PIL.RGBA dot_color) ].

(** The eight derived dimensions the scaling property speaks of. *)
Definition dimensions : list (Z → Z) :=
  [ corner_radius; bell_width; bell_height; handle_width; handle_height;
    rim_height; clapper_radius; dot_radius ].

(** ** The whole function *)

Section Renderer.

(** The library's PNG encoder: the bytes it writes for a canvas.  For a
    canvas without pixels it raises once the header is written, and these
    are then the bytes written so far. *)
Variable png_encode : PIL.Image → list Byte.byte.

(** [img.save(output_path, 'PNG')]: the file is opened for writing, which
    creates or truncates it, and the encoder writes into it.  When the
    encoder raises, the library closes the file and removes it if the
    opening had created it. *)
Definition save (img : PIL.Image) (output_path : string) : OS.M unit := λ w,
  match OS.open_target (OS.tree w) (OS.origin w output_path) output_path with
  | Raise e => (Raise e, w)
  | Ok k =>
      let written :=
        OS.with_tree w (<[k := OS.File (png_encode img)]> (OS.tree w)) in
      if PIL.is_empty img
      then (Raise ValueError,
            match OS.tree w !! k with
            | Some _ => written
            | None => w
            end)
      else (Ok (), written)
  end.

Definition create_notification_bell_icon (size : Z) (output_path : string)
    : OS.M unit :=
  img ← OS.lift (render size);
  OS.makedirs (OS.dirname output_path);;
  save img output_path;;
  OS.print ("Icon generated: " +:+ output_path);;
  OS.print ("Size: " +:+ pretty size +:+ "x" +:+ pretty size +:+ " pixels").

(** The script's entry point calls the function with its defaults. *)
Definition main : OS.M unit :=
  create_notification_bell_icon 1024 "resources/icon.png".

End Renderer.


(** ** Vocabulary of the properties *)

Definition in_canvas (size : Z) (p : PIL.point) : Prop :=
  0 ≤ fst p ≤ size ∧ 0 ≤ snd p ≤ size.

Definition in_bell_box (size : Z) (p : PIL.point) : Prop :=
  center_x size - bell_width size / 2 ≤ fst p ≤ center_x size + bell_width size / 2
  ∧ center_y size - bell_height size / 2 ≤ snd p
      ≤ center_y size + bell_height size / 2.

Definition white : PIL.ink := PIL.Named "white".

(** The two lines printed after a successful save. *)
Definition confirmation (size : Z) (output_path : string) : list string :=
  [ "Icon generated: " +:+ output_path;
    "Size: " +:+ pretty size +:+ "x" +:+ pretty size +:+ " pixels" ].

(** A stand-in for the encoder, to run the function on examples: the PNG
    signature followed by one byte per primitive painted. *)
Definition toy_encode (im : PIL.Image) : list Byte.byte :=
  [Byte.x89; Byte.x50; Byte.x4e; Byte.x47; Byte.x0d; Byte.x0a; Byte.x1a;
   Byte.x0a] ++ map (λ _, Byte.x00) (PIL.drawn im).

(** Example worlds: a project directory that is the working directory;
    the same with a regular file named [resources] in it; a bare root. *)
Definition project_world : OS.world :=
  OS.mkWorld {[ ["project"] := OS.Dir ]} ["project"] [].
Definition blocked_world : OS.world :=
  OS.mkWorld (<[ ["project"; "resources"] := OS.File [] ]>
                {[ ["project"] := OS.Dir ]}) ["project"] [].
Definition bare_world : OS.world := OS.mkWorld ∅ [] [].

(** Paths the file system refuses: one with a NUL character in the file
    name, and one whose directory is a name of 256 bytes. *)
Fixpoint repeat_char (n : nat) (c : ascii) : string :=
  match n with
  | O => EmptyString
  | S m => String c (repeat_char m c)
  end.

Definition nul_path : string :=
  "resources/a" +:+ String "000"%char "b.png".
Definition long_path : string :=
  repeat_char 256 "a"%char +:+ "/icon.png".

(** The [fill] a primitive was painted with. *)
Definition shape_fill (s : PIL.shape) : PIL.ink :=
  match s with
  | PIL.rounded_rectangle _ _ f => f
  | PIL.polygon _ f => f
  | PIL.rectangle _ f => f
  | PIL.ellipse _ f => f
  end.

Global Instance ink_eq_dec : EqDecision PIL.ink.
Proof. solve_decision. Defined.

(** Reflection in the vertical line through the centre. *)
Definition mirror_point (size : Z) (p : PIL.point) : PIL.point :=
  (2 * center_x size - fst p, snd p).

Definition mirror_box (size : Z) (b : PIL.box) : PIL.box :=
  ((2 * center_x size - fst (snd b), snd (fst b)),
   (2 * center_x size - fst (fst b), snd (snd b))).

(** A primitive is its own mirror image: a box is, when its reflection
    has the same corners; a polygon, when its reflected vertices, taken in
    the opposite direction, are the same cycle of vertices. *)
Definition symmetric (size : Z) (s : PIL.shape) : Prop :=
  match s with
  | PIL.polygon pts _ =>
      ∃ k, rotate k pts = reverse (map (mirror_point size) pts)
  | PIL.rounded_rectangle b _ _ => mirror_box size b = b
  | PIL.rectangle b _ => mirror_box size b = b
  | PIL.ellipse b _ => mirror_box size b = b
  end.

(** Enlarging a primitive by a factor [k] about the origin. *)
Definition scale_point (k : Z) (p : PIL.point) : PIL.point :=
  (k * fst p, k * snd p).
Definition scale_box (k : Z) (b : PIL.box) : PIL.box :=
  (scale_point k (fst b), scale_point k (snd b)).
Definition scale_shape (k : Z) (s : PIL.shape) : PIL.shape :=
  match s with
  | PIL.rounded_rectangle b r f =>
      PIL.rounded_rectangle (scale_box k b) (k * r) f
  | PIL.polygon pts f => PIL.polygon (map (scale_point k) pts) f
  | PIL.rectangle b f => PIL.rectangle (scale_box k b) f
  | PIL.ellipse b f => PIL.ellipse (scale_box k b) f
  end.

(** The distance between the least and the greatest of some coordinates,
    and whether the coordinates of a primitive are spread over a positive
    width and a positive height. *)
Definition extent (zs : list Z) : Z :=
  match zs with
  | [] => 0
  | z :: rest => fold_right Z.max z rest - fold_right Z.min z rest
  end.

Definition has_extent (s : PIL.shape) : bool :=
  (0 <? extent (map fst (PIL.coordinates s)))
  && (0 <? extent (map snd (PIL.coordinates s))).

(** The project directory with a file of its own in it. *)
Definition stocked_world : OS.world :=
  OS.mkWorld (<[ ["project"; "notes.txt"] := OS.File [Byte.x68; Byte.x69] ]>
                {[ ["project"] := OS.Dir ]}) ["project"] [].

(** * Properties *)

Import OS.

(** ** Path strings *)

Lemma split_sep_cons c s :
  split_sep (String c s) =
    if is_sep c then EmptyString :: split_sep s else cons_char c (split_sep s).
Proof. reflexivity. Qed.

Lemma split_sep_nonnil s : split_sep s ≠ [].
Proof.
  destruct s as [|c s]; [done|]. rewrite split_sep_cons.
  destruct (is_sep c); [done|]. by destruct (split_sep s).
Qed.

Lemma cons_char_app c l1 l2 :
  l1 ≠ [] → cons_char c (l1 ++ l2) = cons_char c l1 ++ l2.
Proof. by destruct l1. Qed.

Lemma rsplit_sep_head_empty p :
  fst (rsplit_sep p) = EmptyString ↔ has_sep p = false.
Proof.
  induction p as [|c s IH]; [done|]. cbn [rsplit_sep has_sep].
  destruct (rsplit_sep s) as [h t]. cbn [fst] in IH.
  destruct (is_sep c); cbn [orb fst].
  - split; discriminate.
  - rewrite <- IH. destruct h; cbn [fst]; split; done.
Qed.

Lemma rstrip_sep_empty s : rstrip_sep s = EmptyString ↔ all_sep s = true.
Proof.
  induction s as [|c s IH]; [done|]. cbn [rstrip_sep all_sep].
  destruct (rstrip_sep s) as [|c' r'].
  - destruct (is_sep c); cbn [andb]; [tauto|]. split; discriminate.
  - split; [discriminate|]. intros [_ H]%andb_true_iff. by apply IH in H.
Qed.

Lemma rstrip_sep_cons c s :
  rstrip_sep (String c s) =
    if is_sep c && all_sep s then EmptyString else String c (rstrip_sep s).
Proof.
  cbn [rstrip_sep]. destruct (rstrip_sep s) as [|c' r'] eqn:E.
  - apply rstrip_sep_empty in E. rewrite E. by destruct (is_sep c).
  - destruct (all_sep s) eqn:E'; [|by rewrite andb_false_r].
    apply rstrip_sep_empty in E'. congruence.
Qed.

Lemma dirname_empty p : dirname p = EmptyString ↔ has_sep p = false.
Proof.
  rewrite <- rsplit_sep_head_empty. unfold dirname.
  destruct (fst (rsplit_sep p)) as [|c h] eqn:E; [done|].
  cbn [nonempty andb]. destruct (all_sep (String c h)) eqn:Ha; cbn [negb]; [done|].
  split; [|done]. intros H. apply rstrip_sep_empty in H. congruence.
Qed.

Lemma split_sep_rstrip s :
  ∃ k, split_sep s = split_sep (rstrip_sep s) ++ replicate k EmptyString.
Proof.
  induction s as [|c s [k IH]]; [by exists 0%nat|].
  rewrite rstrip_sep_cons, split_sep_cons.
  destruct (is_sep c) eqn:Hc; cbn [andb].
  - destruct (all_sep s) eqn:Ha.
    + apply rstrip_sep_empty in Ha. rewrite Ha in IH. exists (S k).
      by rewrite IH.
    + exists k. rewrite split_sep_cons, Hc. by rewrite IH.
  - exists k. rewrite split_sep_cons, Hc, IH.
    apply cons_char_app, split_sep_nonnil.
Qed.

Lemma names_rstrip s : names (rstrip_sep s) = names s.
Proof.
  unfold names. destruct (split_sep_rstrip s) as [k ->].
  rewrite filter_app.
  assert (filter (λ n, nonempty n = true) (replicate k EmptyString) = []) as ->.
  { induction k as [|k IHk]; [done|]. cbn [replicate].
    by rewrite filter_cons_False. }
  by rewrite app_nil_r.
Qed.

Lemma split_sep_rsplit p :
  ∃ init, split_sep p = init ++ [snd (rsplit_sep p)] ∧
    if nonempty (fst (rsplit_sep p))
    then init ≠ [] ∧ split_sep (fst (rsplit_sep p)) = init ++ [EmptyString]
    else init = [].
Proof.
  induction p as [|c s (init & IH1 & IH2)]; [by exists []|].
  rewrite split_sep_cons. cbn [rsplit_sep].
  destruct (rsplit_sep s) as [h t]. cbn [fst snd] in *.
  destruct (is_sep c) eqn:Hc; cbn [fst snd nonempty].
  - exists (EmptyString :: init). rewrite IH1. split; [done|]. split; [done|].
    rewrite split_sep_cons, Hc. destruct h; cbn [nonempty] in IH2.
    + by subst.
    + destruct IH2 as [_ ->]. done.
  - destruct h as [|c' h']; cbn [nonempty] in IH2; cbn [fst snd nonempty].
    + subst init. exists []. rewrite IH1. done.
    + destruct IH2 as [Hne IH2]. exists (cons_char c init).
      rewrite IH1, cons_char_app by done. split; [done|].
      split; [by destruct init|].
      rewrite split_sep_cons, Hc, IH2. by apply cons_char_app.
Qed.

Lemma names_dirname p :
  names p = names (dirname p)
            ++ (if nonempty (basename p) then [basename p] else []).
Proof.
  assert (names (dirname p) = names (fst (rsplit_sep p))) as ->.
  { unfold dirname. destruct (_ && _); [apply names_rstrip|done]. }
  unfold basename. destruct (split_sep_rsplit p) as (init & H1 & H2).
  unfold names at 1. rewrite H1, filter_app.
  assert (names (fst (rsplit_sep p)) = filter (λ n, nonempty n = true) init) as ->.
  { destruct (nonempty (fst (rsplit_sep p))) eqn:E.
    - destruct H2 as [_ H2]. unfold names. rewrite H2, filter_app.
      rewrite (filter_cons_False _ EmptyString) by done. by rewrite app_nil_r.
    - subst init. by destruct (fst (rsplit_sep p)). }
  f_equal. destruct (snd (rsplit_sep p)); [by rewrite filter_cons_False|].
  by rewrite filter_cons_True.
Qed.

Lemma isabs_dirname p : isabs (dirname p) = isabs p.
Proof.
  unfold dirname.
  assert (isabs (fst (rsplit_sep p)) = isabs p) as Hh.
  { destruct p as [|c s]; [done|]. cbn [rsplit_sep isabs].
    destruct (rsplit_sep s) as [h t]. destruct (is_sep c) eqn:Hc; [done|].
    destruct h; cbn [fst isabs]; done. }
  destruct (fst (rsplit_sep p)) as [|c h]; [done|].
  cbn [nonempty andb]. destruct (all_sep (String c h)) eqn:Ha; cbn [negb]; [done|].
  rewrite rstrip_sep_cons. rewrite <- Hh. cbn [isabs].
  cbn [all_sep] in Ha. by rewrite Ha.
Qed.

(** *** NUL characters and lengths *)

Lemma has_nul_cons_char c (l : list string) :
  existsb has_nul (cons_char c l) = is_nul c || existsb has_nul l.
Proof.
  destruct l as [|w ws]; cbn [cons_char existsb has_nul].
  - by rewrite !orb_false_r.
  - by rewrite orb_assoc.
Qed.

Lemma has_nul_split p : has_nul p = existsb has_nul (split_sep p).
Proof.
  induction p as [|c s IH]; [done|]. rewrite split_sep_cons.
  cbn [has_nul]. destruct (is_sep c) eqn:Hc.
  - apply bool_decide_eq_true in Hc as ->. cbn [existsb has_nul]. by rewrite IH.
  - by rewrite has_nul_cons_char, IH.
Qed.

Lemma names_have_no_nul p n : has_nul p = false → n ∈ names p → has_nul n = false.
Proof.
  rewrite has_nul_split. intros Hp [_ Hn]%list_elem_of_filter.
  destruct (has_nul n) eqn:E; [|done].
  assert (existsb has_nul (split_sep p) = true); [|congruence].
  apply existsb_exists. exists n. split; [by apply list_elem_of_In|done].
Qed.

Lemma char_bytes_pos c : 1 ≤ char_bytes c.
Proof. destruct c as [? ? ? ? ? ? ? []]; cbn; lia. Qed.

Lemma encoded_length_nonneg s : 0 ≤ encoded_length s.
Proof.
  induction s as [|c s IH]; cbn [encoded_length]; [lia|].
  pose proof (char_bytes_pos c). lia.
Qed.

Lemma encoded_length_rsplit p :
  encoded_length (fst (rsplit_sep p)) + encoded_length (snd (rsplit_sep p))
  = encoded_length p.
Proof.
  induction p as [|c s IH]; [done|]. cbn [rsplit_sep].
  destruct (rsplit_sep s) as [h t]. cbn [fst snd] in IH.
  destruct (is_sep c); [cbn [fst snd encoded_length]; lia|].
  destruct h; cbn [fst snd encoded_length] in *; lia.
Qed.

Lemma encoded_length_rstrip s : encoded_length (rstrip_sep s) ≤ encoded_length s.
Proof.
  induction s as [|c s IH]; [done|]. rewrite rstrip_sep_cons.
  pose proof (char_bytes_pos c). pose proof (encoded_length_nonneg s).
  destruct (_ && _); cbn [encoded_length]; lia.
Qed.

Lemma encoded_length_dirname p : encoded_length (dirname p) ≤ encoded_length p.
Proof.
  pose proof (encoded_length_rsplit p).
  pose proof (encoded_length_nonneg (snd (rsplit_sep p))).
  pose proof (encoded_length_rstrip (fst (rsplit_sep p))).
  unfold dirname. destruct (_ && _); lia.
Qed.

Lemma located_names_from pos fs :
  (locate_fields pos fs).*1 = filter (λ n, nonempty n = true) fs.
Proof.
  revert pos. induction fs as [|f rest IH]; intros pos; [done|].
  cbn [locate_fields]. rewrite fmap_app, IH. destruct f as [|c f].
  - by rewrite filter_cons_False.
  - by rewrite filter_cons_True.
Qed.

Lemma located_names p : (located p).*1 = names p.
Proof. apply located_names_from. Qed.

Lemma locate_fields_bound p : ∀ pos,
  Forall (λ e, snd e ≤ pos + encoded_length p)
    (locate_fields pos (split_sep p)).
Proof.
  induction p as [|c s IH]; intros pos; [by constructor|].
  rewrite split_sep_cons. cbn [encoded_length].
  pose proof (encoded_length_nonneg s).
  destruct (is_sep c) eqn:Hc.
  - apply bool_decide_eq_true in Hc as ->. cbn [locate_fields nonempty app].
    eapply Forall_impl; [apply (IH (pos + 0 + 1))|].
    intros e He. cbn [char_bytes encoded_length] in *. lia.
  - specialize (IH (pos + char_bytes c)).
    destruct (split_sep s) as [|w ws] eqn:Hsplit; [by destruct (split_sep_nonnil s)|].
    cbn [cons_char locate_fields nonempty app encoded_length] in *.
    apply Forall_cons. split.
    + cbn [snd]. destruct w as [|c' w'].
      * cbn [encoded_length]. lia.
      * cbn [nonempty app] in IH. apply Forall_cons in IH as [IH _].
        cbn [snd] in IH. lia.
    + assert (Forall (λ e, snd e ≤ pos + char_bytes c + encoded_length s)
                (locate_fields (pos + char_bytes c + encoded_length w + 1) ws))
        as Htail.
      { destruct w; cbn [nonempty app] in IH;
          [|apply Forall_cons in IH as [_ IH]]; exact IH. }
      replace (pos + (char_bytes c + encoded_length w) + 1)
        with (pos + char_bytes c + encoded_length w + 1) by lia.
      eapply Forall_impl; [exact Htail|]. intros e He. cbn beta in *. lia.
Qed.

Lemma located_bound p : Forall (λ e, snd e ≤ encoded_length p) (located p).
Proof. apply (locate_fields_bound p 0). Qed.

Lemma names_of_dirname p n : n ∈ names (dirname p) → n ∈ names p.
Proof. rewrite (names_dirname p). intros. apply elem_of_app. by left. Qed.

Lemma basename_in_names p :
  nonempty (basename p) = true → basename p ∈ names p.
Proof.
  intros Hb. rewrite (names_dirname p), Hb. apply elem_of_app. right.
  apply list_elem_of_singleton. done.
Qed.

Lemma portable_inv p :
  portable p = true →
  has_nul p = false ∧ encoded_length p < PATH_MAX
  ∧ ∀ n, n ∈ names p → too_long n = false.
Proof.
  unfold portable. rewrite !andb_true_iff, negb_true_iff, Z.ltb_lt.
  intros [[Hnul Hlen] Hnames]. split_and!; [done..|].
  intros n Hn%list_elem_of_In. rewrite forallb_forall in Hnames.
  specialize (Hnames n Hn). by apply negb_true_iff in Hnames.
Qed.

Lemma portable_check p :
  portable p = true → nonempty p = true → check_path p = Ok ().
Proof.
  intros (Hnul & Hlen & _)%portable_inv Hp. unfold check_path.
  rewrite Hnul, Hp. cbn [negb].
  by replace (PATH_MAX <=? encoded_length p) with false
    by (symmetry; apply Z.leb_gt; lia).
Qed.

Lemma portable_dirname p :
  portable p = true → Forall (λ e, accepted e = true) (located (dirname p)).
Proof.
  intros (Hnul & Hlen & Hnames)%portable_inv.
  pose proof (located_bound (dirname p)) as Hbound.
  pose proof (encoded_length_dirname p) as Hdir.
  apply Forall_forall. intros [n stop] Hin.
  assert (n ∈ names p) as Hn.
  { apply names_of_dirname. rewrite <- located_names.
    apply list_elem_of_fmap. by exists (n, stop). }
  apply (proj1 (Forall_forall _ _) Hbound) in Hin. cbn [snd] in Hin.
  unfold accepted, refusal. cbn [fst snd].
  rewrite (names_have_no_nul _ _ Hnul Hn), (Hnames _ Hn).
  by replace (PATH_MAX <=? stop) with false
    by (symmetry; apply Z.leb_gt; lia).
Qed.

Lemma portable_names_of_dirname p :
  portable p = true → Forall (λ n, too_long n = false) (names (dirname p)).
Proof.
  intros (_ & _ & Hnames)%portable_inv. apply Forall_forall.
  intros n Hn. by apply Hnames, names_of_dirname.
Qed.

(** ** The file tree *)

Lemma node_at_lookup (t : gmap location node) k : k ≠ [] → node_at t k = t !! k.
Proof. by destruct k. Qed.

Lemma node_at_insert_ne (t : gmap location node) k k' v :
  k ≠ k' → node_at (<[k:=v]> t) k' = node_at t k'.
Proof. intros Hne. destruct k'; [done|]. cbn. by rewrite lookup_insert_ne. Qed.

Lemma node_at_None (t : gmap location node) k :
  node_at t k = None → k ≠ [] ∧ t !! k = None.
Proof. by destruct k. Qed.

Lemma node_at_insert_eq (t : gmap location node) k v :
  k ≠ [] → node_at (<[k:=v]> t) k = Some v.
Proof. intros Hk. rewrite node_at_lookup by done. apply lookup_insert_eq. Qed.

Lemma admitted_inv n stop :
  accepted (n, stop) = true → refusal n stop = None ∧ too_long n = false.
Proof.
  unfold accepted. cbn [fst snd]. destruct (refusal n stop); [done|].
  by intros ->%negb_true_iff.
Qed.

Lemma mkwalk_frame ns : ∀ t cur r t',
  mkwalk t cur ns = (r, t') →
  ∀ k, t' !! k = t !! k
       ∨ (k ∈ visited cur ns.*1 ∧ t !! k = None ∧ t' !! k = Some Dir).
Proof.
  induction ns as [|[n stop] rest IH]; intros t cur r t' Hrun k;
    cbn [mkwalk] in Hrun.
  { injection Hrun as _ <-. by left. }
  destruct (refusal n stop); [injection Hrun as _ <-; by left|].
  destruct (too_long n); [injection Hrun as _ <-; by left|].
  cbn [fmap list_fmap fst visited]. set (next := step cur n) in *.
  destruct (node_at t next) as [[|d]|] eqn:Hnext.
  - destruct (IH _ _ _ _ Hrun k) as [?|(? & ? & ?)]; [by left|].
    right. split_and!; [|done..]. by apply elem_of_cons; right.
  - injection Hrun as _ <-. by left.
  - apply node_at_None in Hnext as [Hne Hnone].
    destruct (IH _ _ _ _ Hrun k) as [Heq|(Hin & Hnew & Hdir)].
    + destruct (decide (k = next)) as [->|Hk].
      * right. rewrite lookup_insert_eq in Heq.
        split_and!; [apply elem_of_cons; by left|done..].
      * left. by rewrite lookup_insert_ne in Heq.
    + destruct (decide (k = next)) as [->|Hk].
      * by rewrite lookup_insert_eq in Hnew.
      * rewrite lookup_insert_ne in Hnew by done.
        right. split_and!; [|done..]. by apply elem_of_cons; right.
Qed.

Lemma mkwalk_keeps_dirs ns t cur r t' k :
  mkwalk t cur ns = (r, t') → is_dir t k = true → is_dir t' k = true.
Proof.
  intros Hrun. unfold is_dir. destruct k as [|n k]; [done|]. cbn [node_at].
  destruct (mkwalk_frame _ _ _ _ _ Hrun (n :: k)) as [->|(_ & -> & _)]; done.
Qed.

Lemma mkwalk_ok ns : ∀ t cur,
  Forall (λ e, accepted e = true) ns →
  Forall (not_file t) (visited cur ns.*1) →
  ∃ t', mkwalk t cur ns = (Ok (), t')
        ∧ Forall (λ k, is_dir t' k = true) (visited cur ns.*1).
Proof.
  induction ns as [|[n stop] rest IH]; intros t cur Hadm Hclear;
    cbn [mkwalk fmap list_fmap fst visited] in *.
  { by exists t. }
  apply Forall_cons in Hadm as [[Hr Hl]%admitted_inv Hadm].
  destruct (refusal n stop); [done|]. destruct (too_long n); [done|].
  apply Forall_cons in Hclear as [Hhead Hrest].
  set (next := step cur n) in *.
  destruct (node_at t next) as [[|d]|] eqn:Hnext.
  - destruct (IH _ _ Hadm Hrest) as (t' & Hrun & Hdirs).
    exists t'. split; [done|]. apply Forall_cons. split; [|done].
    eapply mkwalk_keeps_dirs; [done|]. unfold is_dir. by rewrite Hnext.
  - by destruct (Hhead d).
  - apply node_at_None in Hnext as [Hne Hnone].
    destruct (IH (<[next:=Dir]> t) next Hadm) as (t' & Hrun & Hdirs).
    { eapply Forall_impl; [exact Hrest|]. intros k Hk d.
      destruct (decide (next = k)) as [<-|Hneq].
      - by rewrite node_at_insert_eq.
      - rewrite node_at_insert_ne by done. apply Hk. }
    exists t'. split; [done|]. apply Forall_cons. split; [|done].
    eapply mkwalk_keeps_dirs; [done|]. unfold is_dir.
    by rewrite node_at_insert_eq.
Qed.

(** On directories that all exist the walk creates nothing. *)
Lemma mkwalk_existing ns : ∀ t cur,
  Forall (λ e, accepted e = true) ns →
  Forall (λ k, is_dir t k = true) (visited cur ns.*1) →
  mkwalk t cur ns = (Ok (), t).
Proof.
  induction ns as [|[n stop] rest IH]; intros t cur Hadm Hdirs;
    cbn [mkwalk fmap list_fmap fst visited] in *.
  { done. }
  apply Forall_cons in Hadm as [[-> ->]%admitted_inv Hadm].
  apply Forall_cons in Hdirs as [Hhead Hrest]. unfold is_dir in Hhead.
  destruct (node_at t (step cur n)) as [[|d]|]; try done. by apply IH.
Qed.

Lemma mkwalk_ok_inv ns : ∀ t cur t',
  mkwalk t cur ns = (Ok (), t') →
  Forall (not_file t) (visited cur ns.*1)
  ∧ Forall (λ k, is_dir t' k = true) (visited cur ns.*1).
Proof.
  induction ns as [|[n stop] rest IH]; intros t cur t' Hrun;
    cbn [mkwalk fmap list_fmap fst visited] in *.
  { split; constructor. }
  destruct (refusal n stop); [done|]. destruct (too_long n); [done|].
  set (next := step cur n) in *.
  destruct (node_at t next) as [[|d]|] eqn:Hnext; [| done |].
  - destruct (IH _ _ _ Hrun) as [Hclear Hdirs]. split.
    + apply Forall_cons. split; [|done]. intros d. by rewrite Hnext.
    + apply Forall_cons. split; [|done].
      eapply mkwalk_keeps_dirs; [done|]. unfold is_dir. by rewrite Hnext.
  - destruct (IH _ _ _ Hrun) as [Hclear Hdirs]. split.
    + apply Forall_cons. split; [intros d; by rewrite Hnext|].
      eapply Forall_impl; [exact Hclear|]. intros k Hk d Hfile.
      apply (Hk d). rewrite node_at_insert_ne; [done|].
      intros <-. by rewrite Hnext in Hfile.
    + apply Forall_cons. split; [|done].
      eapply mkwalk_keeps_dirs; [done|]. unfold is_dir.
      apply node_at_None in Hnext as [Hne _]. by rewrite node_at_insert_eq.
Qed.

Lemma mkwalk_error_kinds ns : ∀ t cur e t',
  Forall (λ e, accepted e = true) ns →
  mkwalk t cur ns = (Raise e, t') →
  e = FileExistsError ∨ e = NotADirectoryError.
Proof.
  induction ns as [|[n stop] rest IH]; intros t cur e t' Hadm Hrun;
    cbn [mkwalk] in Hrun.
  { done. }
  apply Forall_cons in Hadm as [[Hr Hl]%admitted_inv Hadm].
  rewrite Hr, Hl in Hrun.
  destruct (node_at t (step cur n)) as [[|d]|]; [by eapply IH| |by eapply IH].
  injection Hrun as <- _. destruct rest as [|[n' stop'] rest]; [by left|].
  apply Forall_cons in Hadm as [[-> _]%admitted_inv _]. by right.
Qed.

Lemma walk_dirs_visited ns : ∀ t cur,
  Forall (λ n, too_long n = false) ns →
  is_dir t cur = true →
  Forall (λ k, is_dir t k = true) (visited cur ns) →
  walk_dirs t cur ns = Ok (resolve cur ns).
Proof.
  induction ns as [|n rest IH]; intros t cur Hshort Hcur Hdirs;
    unfold is_dir in Hcur; cbn [walk_dirs visited resolve fold_left] in *;
    destruct (node_at t cur) as [[|d]|]; try done.
  apply Forall_cons in Hshort as [-> Hshort].
  apply Forall_cons in Hdirs as [Hhead Hrest]. by apply IH.
Qed.

Lemma walk_dirs_inv ns : ∀ t cur dir,
  walk_dirs t cur ns = Ok dir →
  dir = resolve cur ns ∧ is_dir t cur = true
  ∧ Forall (λ k, is_dir t k = true) (visited cur ns)
  ∧ Forall (λ n, too_long n = false) ns.
Proof.
  induction ns as [|n rest IH]; intros t cur dir Hwalk;
    cbn [walk_dirs visited resolve fold_left] in *; unfold is_dir at 1;
    destruct (node_at t cur) as [[|d]|]; try done.
  - injection Hwalk as <-. split_and!; [done..|constructor|constructor].
  - destruct (too_long n) eqn:Hn; [done|].
    destruct (IH _ _ _ Hwalk) as (-> & Hnext & Hrest & Hshort).
    split_and!; [done..| |]; by apply Forall_cons.
Qed.

Lemma walk_dirs_mono (ns : list string) (t t' : gmap location node)
    (cur dir : location) :
  (∀ k, is_dir t k = true → is_dir t' k = true) →
  walk_dirs t cur ns = Ok dir → walk_dirs t' cur ns = Ok dir.
Proof.
  intros Hmono (-> & Hcur & Hdirs & Hshort)%walk_dirs_inv.
  apply walk_dirs_visited; [done|by apply Hmono|].
  eapply Forall_impl; [exact Hdirs|]. done.
Qed.

Lemma resolve_visited cur ns :
  resolve cur ns = cur ∨ resolve cur ns ∈ visited cur ns.
Proof.
  revert cur. induction ns as [|n rest IH]; intros cur; [by left|].
  right. cbn [resolve fold_left visited]. apply elem_of_cons.
  destruct (IH (step cur n)) as [Heq|Hin]; [left|right]; done.
Qed.

Lemma is_dir_insert_file (t : gmap location node) k data k' :
  t !! k ≠ Some Dir → is_dir t k' = true →
  is_dir (<[k := File data]> t) k' = true.
Proof.
  intros Hk. unfold is_dir. destruct (decide (k = k')) as [<-|Hne].
  - destruct k as [|n k]; [done|]. cbn [node_at].
    destruct (t !! (n :: k)) as [[|d]|]; done.
  - by rewrite node_at_insert_ne.
Qed.

Lemma names_split p :
  nonempty (basename p) = true →
  removelast (names p) = names (dirname p)
  ∧ last (names p) = Some (basename p).
Proof.
  intros Hb. rewrite (names_dirname p), Hb. split.
  - apply removelast_last.
  - apply last_snoc.
Qed.

Lemma last_names_basename p n :
  last (names p) = Some n → nonempty (basename p) = true → n = basename p.
Proof. intros Hl Hb. apply names_split in Hb as [_ Hb]. congruence. Qed.

Lemma step_plain cur n :
  nonempty n = true → is_dots n = false → step cur n = cur ++ [n].
Proof.
  unfold is_dots, step. intros Hn [H1 H2]%orb_false_iff.
  rewrite H1, H2. destruct n; done.
Qed.

Lemma check_path_nonempty p : check_path p = Ok () → nonempty p = true.
Proof.
  unfold check_path. destruct (has_nul p); [done|].
  by destruct (nonempty p).
Qed.

Lemma open_target_inv t start p k :
  open_target t start p = Ok k →
  let dir := resolve start (names (dirname p)) in
  check_path p = Ok ()
  ∧ nonempty (basename p) = true ∧ is_dots (basename p) = false
  ∧ too_long (basename p) = false
  ∧ walk_dirs t start (names (dirname p)) = Ok dir
  ∧ k = dir ++ [basename p] ∧ t !! k ≠ Some Dir.
Proof.
  unfold open_target. destruct (check_path p) as [[]|e];
    cbn [mbind result_bind]; [|done].
  destruct (walk_dirs t start (removelast (names p))) as [dir|e] eqn:Hwalk;
    cbn [mbind result_bind]; [|done].
  destruct (last (names p)) as [n|] eqn:Hlast; [|done].
  destruct (nonempty (basename p)) eqn:Hb; cbn [negb orb]; [|done].
  pose proof (last_names_basename _ _ Hlast Hb) as ->.
  destruct (is_dots (basename p)) eqn:Hdots; [done|].
  destruct (too_long (basename p)) eqn:Hlong; [done|].
  apply names_split in Hb as [Hinit _]. rewrite Hinit in Hwalk.
  pose proof (walk_dirs_inv _ _ _ _ Hwalk) as (-> & _).
  intros Hres. cbn zeta.
  assert (k = resolve start (names (dirname p)) ++ [basename p]) as ->
    by (destruct (t !! _) as [[|d]|]; congruence).
  split_and!; [done..|]. intros Hdir. by rewrite Hdir in Hres.
Qed.

Lemma open_target_ok t start p :
  let dir := resolve start (names (dirname p)) in
  check_path p = Ok () →
  nonempty (basename p) = true → is_dots (basename p) = false →
  too_long (basename p) = false →
  walk_dirs t start (names (dirname p)) = Ok dir →
  t !! (dir ++ [basename p]) ≠ Some Dir →
  open_target t start p = Ok (dir ++ [basename p]).
Proof.
  intros dir Hcheck Hb Hdots Hlong Hwalk Hfree. unfold open_target.
  rewrite Hcheck. cbn [mbind result_bind].
  destruct (names_split _ Hb) as [-> ->].
  rewrite Hwalk. cbn [mbind result_bind]. rewrite Hb, Hdots, Hlong.
  cbn [negb orb]. fold dir.
  destruct (t !! (dir ++ [basename p])) as [[|d]|]; done.
Qed.

Lemma write_file_inv t start p data t' :
  write_file t start p data = Ok t' →
  let dir := resolve start (names (dirname p)) in
  nonempty (basename p) = true ∧ is_dots (basename p) = false
  ∧ walk_dirs t start (names (dirname p)) = Ok dir
  ∧ t !! (dir ++ [basename p]) ≠ Some Dir
  ∧ t' = <[dir ++ [basename p] := File data]> t.
Proof.
  unfold write_file.
  destruct (open_target t start p) as [k|e] eqn:Hopen;
    cbn [mbind result_bind]; [|done].
  apply open_target_inv in Hopen as (_ & Hb & Hdots & _ & Hwalk & -> & Hfree).
  intros [= <-]. done.
Qed.

Lemma read_after_write t start p data t' :
  write_file t start p data = Ok t' → read_file t' start p = Ok data.
Proof.
  unfold write_file.
  destruct (open_target t start p) as [k|e] eqn:Hopen;
    cbn [mbind result_bind]; [|done].
  apply open_target_inv in Hopen
    as (Hcheck & Hb & Hdots & _ & Hwalk & -> & Hfree).
  intros [= <-]. unfold read_file. rewrite Hcheck. cbn [mbind result_bind].
  destruct (names_split _ Hb) as [-> ->].
  rewrite (walk_dirs_mono _ t _ _ _
             (λ k, is_dir_insert_file t _ data k Hfree) Hwalk).
  cbn [mbind result_bind]. rewrite step_plain by done.
  rewrite node_at_insert_eq by (by destruct (resolve _ _)).
  by rewrite Hb.
Qed.

(** ** Geometry *)

Ltac unfold_geometry :=
  unfold background_box, handle_box, rim_box, clapper_box, dot_box,
    bell_points, dot_x, dot_y, dot_radius, clapper_y, clapper_radius,
    rim_height, handle_y, handle_height, handle_width, bell_right_x,
    bell_left_x, bell_bottom_y, bell_top_y, bell_height, bell_width,
    center_y, center_x, corner_radius in *.

Ltac floor_arith :=
  unfold_geometry; cbn [fst snd] in *; Z.div_mod_to_equations; lia.

Lemma ordered_iff x0 y0 x1 y1 :
  PIL.ordered ((x0, y0), (x1, y1)) = true ↔ x0 ≤ x1 ∧ y0 ≤ y1.
Proof. unfold PIL.ordered. rewrite andb_true_iff, !Z.leb_le. tauto. Qed.

Lemma background_box_ordered size : 0 ≤ size → PIL.ordered (background_box size) = true.
Proof. intros. apply ordered_iff. lia. Qed.

Lemma handle_box_ordered size : 0 ≤ size → PIL.ordered (handle_box size) = true.
Proof. intros. apply ordered_iff. floor_arith. Qed.

Lemma rim_box_ordered size : 0 ≤ size → PIL.ordered (rim_box size) = true.
Proof. intros. apply ordered_iff. floor_arith. Qed.

Lemma clapper_box_ordered size : 0 ≤ size → PIL.ordered (clapper_box size) = true.
Proof. intros. apply ordered_iff. floor_arith. Qed.

Lemma dot_box_ordered size : 0 ≤ size → PIL.ordered (dot_box size) = true.
Proof. intros. apply ordered_iff. floor_arith. Qed.

(** For a size the library accepts, no drawing call raises and the canvas
    carries the six primitives in order. *)
Lemma render_ok size :
  0 ≤ size →
  render size = Ok (PIL.mkImage "RGBA" (size, size) (0, 0, 0, 0) (icon_shapes size)).
Proof.
  intros Hsize. unfold render, blank_canvas, PIL.new. cbn [fst snd].
  replace (size <? 0) with false by (symmetry; apply Z.ltb_ge; lia).
  cbn [orb mbind result_bind].
  unfold PIL.draw_rounded_rectangle, PIL.draw_polygon, PIL.draw_rectangle,
    PIL.draw_ellipse.
  rewrite background_box_ordered by done. cbn [mbind result_bind].
  rewrite handle_box_ordered by done. cbn [mbind result_bind].
  rewrite rim_box_ordered by done. cbn [mbind result_bind].
  rewrite clapper_box_ordered by done. cbn [mbind result_bind].
  rewrite dot_box_ordered by done. reflexivity.
Qed.

Lemma render_negative size : size < 0 → render size = Raise ValueError.
Proof.
  intros Hsize. unfold render, blank_canvas, PIL.new. cbn [fst snd].
  replace (size <? 0) with true by (symmetry; apply Z.ltb_lt; lia).
  reflexivity.
Qed.

(** X11: doubling any size doubles each of the eight dimensions, up to
    one pixel more. *)
Lemma doubling_within_one_pixel (dim : Z → Z) (size : Z) :
  dim ∈ dimensions → 0 ≤ dim (2 * size) - 2 * dim size ≤ 1.
Proof.
  unfold dimensions. rewrite !elem_of_cons, elem_of_nil.
  intros [->|[->|[->|[->|[->|[->|[->|[->|[]]]]]]]]]; floor_arith.
Qed.

(** C1: each of the eight computed dimensions at size 2048 is twice its
    value at size 1024, up to a difference of at most one pixel. *)
Theorem scaling_2048_1024 :
  Forall (λ dim : Z → Z, Z.abs (dim 2048 - 2 * dim 1024) ≤ 1) dimensions.
Proof.
  unfold dimensions. repeat apply Forall_cons_2; try apply Forall_nil_2;
    vm_compute; discriminate.
Qed.

(** C3: for a positive size the canvas is allocated in mode RGBA with
    size × size pixels, every one of them (0,0,0,0), and the rendered
    image keeps that mode and those dimensions. *)
Theorem canvas_is_square_rgba size :
  0 < size →
  ∃ blank im,
    blank_canvas size = Ok blank ∧
    (∀ x y, 0 ≤ x < size → 0 ≤ y < size →
            PIL.getpixel_blank blank x y = Some (0, 0, 0, 0)) ∧
    render size = Ok im ∧
    PIL.mode im = "RGBA" ∧ PIL.width im = size ∧ PIL.height im = size ∧
    PIL.ground im = PIL.ground blank ∧ PIL.size im = PIL.size blank.
Proof.
  intros Hsize.
  exists (PIL.mkImage "RGBA" (size, size) (0, 0, 0, 0) []).
  eexists. split_and!; [ | | apply render_ok; lia | done..].
  - unfold blank_canvas, PIL.new. cbn [fst snd].
    replace (size <? 0) with false by (symmetry; apply Z.ltb_ge; lia). done.
  - intros x y Hx Hy. unfold PIL.getpixel_blank, PIL.width, PIL.height.
    cbn [fst snd PIL.size PIL.ground].
    replace (0 <=? x) with true by (symmetry; apply Z.leb_le; lia).
    replace (x <? size) with true by (symmetry; apply Z.ltb_lt; lia).
    replace (0 <=? y) with true by (symmetry; apply Z.leb_le; lia).
    replace (y <? size) with true by (symmetry; apply Z.ltb_lt; lia).
    done.
Qed.

Lemma canvas_is_square_rgba_witness :
  ∃ blank im,
    blank_canvas 1024 = Ok blank ∧
    (∀ x y, 0 ≤ x < 1024 → 0 ≤ y < 1024 →
            PIL.getpixel_blank blank x y = Some (0, 0, 0, 0)) ∧
    render 1024 = Ok im ∧
    PIL.mode im = "RGBA" ∧ PIL.width im = 1024 ∧ PIL.height im = 1024 ∧
    PIL.ground im = PIL.ground blank ∧ PIL.size im = PIL.size blank.
Proof. apply (canvas_is_square_rgba 1024). lia. Defined.

(** C4: the notification dot is the last primitive painted: an ellipse
    filled with (239, 68, 68, 255) whose bounding box is the circle of
    radius size // 12 around the upper-right corner of the bell's box,
    (center_x + bell_width // 2, center_y - bell_height // 2), moved
    right and up by dot_radius // 2. *)
Theorem notification_dot_painted_last size :
  0 < size →
  ∃ im,
    render size = Ok im ∧
    last (PIL.drawn im)
      = Some (PIL.ellipse (dot_box size) (PIL.RGBA (239, 68, 68, 255))) ∧
    (bell_right_x size, bell_top_y size)
      = (center_x size + bell_width size / 2,
         center_y size - bell_height size / 2) ∧
    PIL.box_center (dot_box size)
      = (bell_right_x size + dot_radius size / 2,
         bell_top_y size - dot_radius size / 2) ∧
    PIL.box_radii (dot_box size) = (size / 12, size / 12).
Proof.
  intros Hsize. eexists. split; [apply render_ok; lia|].
  split_and!; [done | done | | ].
  - unfold PIL.box_center, dot_box. f_equal; floor_arith.
  - unfold PIL.box_radii, dot_box. f_equal; floor_arith.
Qed.

Lemma notification_dot_painted_last_witness :
  ∃ im,
    render 1024 = Ok im ∧
    last (PIL.drawn im)
      = Some (PIL.ellipse (dot_box 1024) (PIL.RGBA (239, 68, 68, 255))) ∧
    (bell_right_x 1024, bell_top_y 1024)
      = (center_x 1024 + bell_width 1024 / 2,
         center_y 1024 - bell_height 1024 / 2) ∧
    PIL.box_center (dot_box 1024)
      = (bell_right_x 1024 + dot_radius 1024 / 2,
         bell_top_y 1024 - dot_radius 1024 / 2) ∧
    PIL.box_radii (dot_box 1024) = (1024 / 12, 1024 / 12).
Proof. apply (notification_dot_painted_last 1024). lia. Defined.

(** C5: the clapper is the ellipse painted after the rim: a circle of
    radius bell_width // 8 centred at (center_x, clapper_y) with
    clapper_y = bell_bottom_y + clapper_radius + rim_height * 2, so its top
    is not above the bottom of the rim. *)
Theorem clapper_below_rim size :
  0 < size →
  ∃ im,
    render size = Ok im ∧
    PIL.drawn im !! 3%nat = Some (PIL.rectangle (rim_box size) white) ∧
    PIL.drawn im !! 4%nat = Some (PIL.ellipse (clapper_box size) white) ∧
    PIL.box_center (clapper_box size)
      = (center_x size,
         bell_bottom_y size + clapper_radius size + rim_height size * 2) ∧
    PIL.box_radii (clapper_box size)
      = (bell_width size / 8, bell_width size / 8) ∧
    snd (snd (rim_box size)) ≤ snd (fst (clapper_box size)).
Proof.
  intros Hsize. eexists. split; [apply render_ok; lia|].
  split_and!; [done | done | | | ].
  - unfold PIL.box_center, clapper_box. f_equal; floor_arith.
  - unfold PIL.box_radii, clapper_box. f_equal; floor_arith.
  - floor_arith.
Qed.

Lemma clapper_below_rim_witness :
  ∃ im,
    render 1024 = Ok im ∧
    PIL.drawn im !! 3%nat = Some (PIL.rectangle (rim_box 1024) white) ∧
    PIL.drawn im !! 4%nat = Some (PIL.ellipse (clapper_box 1024) white) ∧
    PIL.box_center (clapper_box 1024)
      = (center_x 1024,
         bell_bottom_y 1024 + clapper_radius 1024 + rim_height 1024 * 2) ∧
    PIL.box_radii (clapper_box 1024)
      = (bell_width 1024 / 8, bell_width 1024 / 8) ∧
    snd (snd (rim_box 1024)) ≤ snd (fst (clapper_box 1024)).
Proof. apply (clapper_below_rim 1024). lia. Defined.

(** C6: the centre is (size // 2, size // 2) and the bell's width and
    height are both size // 3.  The body is painted second, as the white
    polygon whose top edge lies on the top of the box of that width and
    height around the centre, a third of the width to either side of the
    centre, and whose bottom edge spans the whole width of the box a
    quarter of the height below the centre.  Its vertices are inside the
    box, and from size 6 on it has a positive width and height. *)
Theorem bell_box_fractions size :
  0 < size →
  (center_x size, center_y size) = (size / 2, size / 2) ∧
  bell_width size = size / 3 ∧ bell_height size = size / 3 ∧
  ∃ im,
    render size = Ok im ∧
    PIL.drawn im !! 1%nat
    = Some (PIL.polygon
              [ (size / 2 - size / 3 / 3, size / 2 - size / 3 / 2);
                (size / 2 + size / 3 / 3, size / 2 - size / 3 / 2);
                (size / 2 + size / 3 / 2, size / 2 + size / 3 / 4);
                (size / 2 - size / 3 / 2, size / 2 + size / 3 / 4) ]
              white) ∧
    Forall (in_bell_box size) (bell_points size) ∧
    (6 ≤ size → has_extent (PIL.polygon (bell_points size) white) = true).
Proof.
  intros Hsize. split_and!; [done..|].
  eexists. split; [apply render_ok; lia|]. split_and!; [done| |].
  - unfold bell_points, in_bell_box.
    repeat apply Forall_cons_2; try apply Forall_nil_2; floor_arith.
  - intros Hbig. unfold has_extent.
    cbn [PIL.coordinates bell_points map fst snd extent fold_right].
    rewrite andb_true_iff, !Z.ltb_lt. split; floor_arith.
Qed.

Lemma bell_box_fractions_witness :
  (center_x 1024, center_y 1024) = (1024 / 2, 1024 / 2) ∧
  bell_width 1024 = 1024 / 3 ∧ bell_height 1024 = 1024 / 3 ∧
  ∃ im,
    render 1024 = Ok im ∧
    PIL.drawn im !! 1%nat
    = Some (PIL.polygon
              [ (1024 / 2 - 1024 / 3 / 3, 1024 / 2 - 1024 / 3 / 2);
                (1024 / 2 + 1024 / 3 / 3, 1024 / 2 - 1024 / 3 / 2);
                (1024 / 2 + 1024 / 3 / 2, 1024 / 2 + 1024 / 3 / 4);
                (1024 / 2 - 1024 / 3 / 2, 1024 / 2 + 1024 / 3 / 4) ]
              white) ∧
    Forall (in_bell_box 1024) (bell_points 1024) ∧
    (6 ≤ 1024 → has_extent (PIL.polygon (bell_points 1024) white) = true).
Proof. apply (bell_box_fractions 1024). lia. Defined.

(** C10: for a positive size every coordinate of every primitive painted
    (background, body, handle, rim, clapper, dot) lies in [0, size] on both
    axes. *)
Theorem shapes_within_canvas size :
  0 < size →
  ∃ im,
    render size = Ok im ∧
    length (PIL.drawn im) = 6%nat ∧
    Forall (λ s, Forall (in_canvas size) (PIL.coordinates s)) (PIL.drawn im).
Proof.
  intros Hsize. eexists. split; [apply render_ok; lia|]. split; [done|].
  cbn [PIL.drawn icon_shapes]. unfold in_canvas.
  repeat apply Forall_cons_2; try apply Forall_nil_2;
    cbn [PIL.coordinates background_box handle_box rim_box clapper_box
         dot_box bell_points];
    repeat apply Forall_cons_2; try apply Forall_nil_2; floor_arith.
Qed.

Lemma shapes_within_canvas_witness :
  ∃ im,
    render 1024 = Ok im ∧
    length (PIL.drawn im) = 6%nat ∧
    Forall (λ s, Forall (in_canvas 1024) (PIL.coordinates s)) (PIL.drawn im).
Proof. apply (shapes_within_canvas 1024). lia. Defined.

(** ** Effects of the whole function *)

Lemma origin_dirname w p : origin w (dirname p) = origin w p.
Proof. unfold origin. by rewrite isabs_dirname. Qed.

Lemma not_file_is_file (t : gmap location node) (ks : list location) :
  forallb (λ k, negb (is_file t k)) ks = true → Forall (not_file t) ks.
Proof.
  rewrite forallb_forall, Forall_forall. intros H k Hk d Hnode.
  apply list_elem_of_In, H in Hk. unfold is_file in Hk. by rewrite Hnode in Hk.
Qed.

Lemma canvas_has_pixels size c shapes :
  0 < size → PIL.is_empty (PIL.mkImage "RGBA" (size, size) c shapes) = false.
Proof.
  intros Hsize. unfold PIL.is_empty, PIL.width, PIL.height. cbn [PIL.size fst snd].
  by replace (size =? 0) with false by (symmetry; apply Z.eqb_neq; lia).
Qed.

Section RendererProperties.

Variable png_encode : PIL.Image → list Byte.byte.

Lemma makedirs_unfold name w :
  makedirs name w =
    if nonempty name
    then (fst (mkwalk (tree w) (origin w name) (located name)),
          with_tree w (snd (mkwalk (tree w) (origin w name) (located name))))
    else (Raise FileNotFoundError, w).
Proof.
  unfold makedirs. destruct (nonempty name); cbn [negb]; [|done].
  by destruct (mkwalk _ _ _).
Qed.

Lemma run_unfold size path w :
  create_notification_bell_icon png_encode size path w =
    match render size with
    | Raise e => (Raise e, w)
    | Ok im =>
        match makedirs (dirname path) w with
        | (Raise e, w1) => (Raise e, w1)
        | (Ok _, w1) =>
            match open_target (tree w1) (origin w1 path) path with
            | Raise e => (Raise e, w1)
            | Ok k =>
                let t2 := <[k := File (png_encode im)]> (tree w1) in
                if PIL.is_empty im
                then (Raise ValueError,
                      match tree w1 !! k with
                      | Some _ => with_tree w1 t2
                      | None => w1
                      end)
                else (Ok (),
                      mkWorld t2 (cwd w1) (stdout w1 ++ confirmation size path))
            end
        end
    end.
Proof.
  unfold create_notification_bell_icon, lift, save, print, confirmation.
  unfold mbind, M_bind. destruct (render size) as [im|e]; [|done].
  destruct (makedirs (dirname path) w) as [[[]|e] w1]; [|done].
  destruct (open_target _ _ _) as [k|e]; [|done]. cbn zeta.
  destruct (PIL.is_empty im); [done|].
  cbn [with_tree tree cwd stdout]. by rewrite <- app_assoc.
Qed.

Lemma run_ok_inv size path w w' :
  create_notification_bell_icon png_encode size path w = (Ok (), w') →
  ∃ im t1,
    render size = Ok im ∧ PIL.is_empty im = false
    ∧ nonempty (dirname path) = true
    ∧ mkwalk (tree w) (origin w path) (located (dirname path)) = (Ok (), t1)
    ∧ write_file t1 (origin w path) path (png_encode im) = Ok (tree w')
    ∧ cwd w' = cwd w ∧ stdout w' = stdout w ++ confirmation size path.
Proof.
  rewrite run_unfold, makedirs_unfold, origin_dirname.
  destruct (render size) as [im|e]; [|done].
  destruct (nonempty (dirname path)); [|done].
  destruct (mkwalk _ _ _) as [[[]|e] t1]; cbn [fst snd]; [|done].
  change (origin (with_tree w t1) path) with (origin w path).
  cbn [with_tree tree cwd stdout].
  destruct (open_target _ _ _) as [k|e] eqn:Hw; [|done]. cbn zeta.
  destruct (PIL.is_empty im) eqn:Hempty; [done|].
  intros [= <-]. exists im, t1. unfold write_file. rewrite Hw. done.
Qed.

(** The outcome and the resulting tree do not depend on what was on
    standard output before. *)
Lemma outcome_ignores_stdout size path w out :
  let run := create_notification_bell_icon png_encode size path in
  fst (run (mkWorld (tree w) (cwd w) out)) = fst (run w)
  ∧ tree (snd (run (mkWorld (tree w) (cwd w) out))) = tree (snd (run w)).
Proof.
  cbn zeta. rewrite !run_unfold, !makedirs_unfold.
  destruct (render size) as [im|e]; [|done].
  destruct (nonempty (dirname path)); [|done].
  unfold origin. cbn [tree cwd].
  destruct (mkwalk _ _ _) as [[[]|e] t1]; cbn [fst snd with_tree tree cwd];
    [|done].
  destruct (open_target _ _ _) as [k|e]; [|done]. cbn zeta.
  destruct (PIL.is_empty im); [|done]. cbn [fst snd].
  by destruct (t1 !! k).
Qed.

(** C8: whatever the outcome, the working directory is unchanged; standard
    output gains exactly the two confirmation lines (path, then pixel
    dimensions) on success and nothing otherwise; and the file tree changes
    only where a directory on the way to the output directory was missing
    and is created, and at the output file: after a success, and where at
    size 0 the encoder gave up in an existing file, it holds what the
    encoder wrote. *)
Theorem effects_are_files_and_console size path w r w' :
  create_notification_bell_icon png_encode size path w = (r, w') →
  cwd w' = cwd w
  ∧ stdout w' = stdout w ++
      (if succeeded r
       then [ "Icon generated: " +:+ path;
              "Size: " +:+ pretty size +:+ "x" +:+ pretty size +:+ " pixels" ]
       else [])
  ∧ ∀ k, tree w' !! k = tree w !! k
         ∨ (k ∈ way w path ∧ tree w !! k = None ∧ tree w' !! k = Some Dir)
         ∨ (k = target w path ∧ (succeeded r = true ∨ size = 0)
            ∧ ∃ im, render size = Ok im
                    ∧ tree w' !! k = Some (File (png_encode im))).
Proof.
  rewrite run_unfold, makedirs_unfold, origin_dirname.
  destruct (Z.lt_ge_cases size 0) as [Hneg|Hsize].
  { rewrite render_negative by done. intros [= <- <-]. cbn [succeeded].
    rewrite app_nil_r. by auto. }
  rewrite render_ok by done.
  set (im := PIL.mkImage "RGBA" (size, size) (0, 0, 0, 0) (icon_shapes size)).
  destruct (nonempty (dirname path)).
  2:{ intros [= <- <-]. cbn [succeeded]. rewrite app_nil_r. by auto. }
  destruct (mkwalk _ _ _) as [r1 t1] eqn:Hmk. cbn [fst snd].
  pose proof (mkwalk_frame _ _ _ _ _ Hmk) as Hframe.
  rewrite located_names in Hframe. fold (way w path) in Hframe.
  destruct r1 as [[]|e].
  2:{ intros [= <- <-]. cbn [succeeded with_tree cwd stdout tree].
      rewrite app_nil_r. split_and!; [done..|]. intros k.
      destruct (Hframe k) as [?|?]; auto. }
  unfold origin, with_tree. cbn [tree cwd stdout]. fold (origin w path).
  destruct (open_target _ _ _) as [k0|e] eqn:Hw.
  2:{ intros [= <- <-]. cbn [succeeded cwd stdout tree].
      rewrite app_nil_r. split_and!; [done..|]. intros k.
      destruct (Hframe k) as [?|?]; auto. }
  apply open_target_inv in Hw as (_ & _ & _ & _ & _ & -> & _). cbn zeta.
  fold (directory w path) (target w path).
  destruct (PIL.is_empty im) eqn:Hempty.
  - assert (size = 0) as Hzero.
    { destruct (decide (size = 0)) as [|Hne]; [done|].
      unfold im in Hempty. rewrite canvas_has_pixels in Hempty by lia. done. }
    intros [= <- <-]. cbn [succeeded].
    destruct (t1 !! target w path) as [old|] eqn:Hold;
      cbn [cwd stdout tree]; rewrite app_nil_r; (split_and!; [done..|]);
      intros k.
    + destruct (decide (k = target w path)) as [->|Hk].
      * right; right. split_and!; [done|by right|]. exists im.
        split; [done|]. by rewrite lookup_insert_eq.
      * rewrite lookup_insert_ne by done. destruct (Hframe k) as [?|?]; auto.
    + destruct (Hframe k) as [?|?]; auto.
  - intros [= <- <-]. cbn [succeeded cwd stdout tree]. split_and!; [done..|].
    intros k. destruct (decide (k = target w path)) as [->|Hk].
    + right; right. split_and!; [done|by left|]. exists im.
      split; [done|]. by rewrite lookup_insert_eq.
    + rewrite lookup_insert_ne by done. destruct (Hframe k) as [?|?]; auto.
Qed.

(** C9: for an output path without any separator the directory part is
    the empty string, directory creation on it raises, and the call fails
    leaving the world as it was: no file written, nothing printed.  For a
    size the canvas accepts the error is the one of the directory
    creation. *)
Theorem bare_filename_fails size path w :
  has_sep path = false →
  dirname path = EmptyString
  ∧ makedirs (dirname path) w = (Raise FileNotFoundError, w)
  ∧ ∃ e, create_notification_bell_icon png_encode size path w = (Raise e, w)
         ∧ (0 ≤ size → e = FileNotFoundError).
Proof.
  intros Hbare%dirname_empty. rewrite run_unfold, Hbare.
  split_and!; [done..|]. destruct (Z.le_gt_cases 0 size) as [Hsize|Hsize].
  - rewrite render_ok by done. by exists FileNotFoundError.
  - rewrite render_negative by done. exists ValueError. split; [done|lia].
Qed.

(** Conversely, a successful call had a non-empty directory part. *)
Lemma success_needs_directory size path w w' :
  create_notification_bell_icon png_encode size path w = (Ok (), w') →
  has_sep path = true ∧ nonempty (dirname path) = true.
Proof.
  intros (_ & _ & _ & _ & Hd & _)%run_ok_inv. split; [|done].
  destruct (has_sep path) eqn:E; [done|].
  apply dirname_empty in E. by rewrite E in Hd.
Qed.

(** C7, amended: for a positive size and an output path that the file
    system takes (no NUL character, fewer than 4096 bytes, no name of more
    than 255 bytes), with a non-empty directory part and a proper file
    name, started in an existing directory, with no regular file on the
    way to the output directory and with the output path not naming a
    directory, the call succeeds.  Afterwards every location on the way,
    hence the output directory with its parents, is a directory, whether
    it existed before or not, and the file holds the encoded canvas.  A
    second call succeeds again and leaves the file tree as it is. *)
Theorem creates_directory_and_succeeds size path w :
  0 < size →
  portable path = true →
  nonempty (dirname path) = true →
  nonempty (basename path) = true → is_dots (basename path) = false →
  is_dir (tree w) (origin w path) = true →
  forallb (λ k, negb (is_file (tree w) k)) (way w path) = true →
  target w path ∉ way w path →
  is_dir (tree w) (target w path) = false →
  ∃ im w',
    render size = Ok im
    ∧ create_notification_bell_icon png_encode size path w = (Ok (), w')
    ∧ Forall (λ k, is_dir (tree w') k = true) (way w path)
    ∧ is_dir (tree w') (directory w path) = true
    ∧ read w' path = Ok (png_encode im)
    ∧ ∃ w'', create_notification_bell_icon png_encode size path w' = (Ok (), w'')
             ∧ tree w'' = tree w'.
Proof.
  intros Hsize Hport Hdir Hbase Hdots Hstart Hclear%not_file_is_file
    Hnotway Hfree.
  pose proof (portable_dirname _ Hport) as Hadm.
  pose proof (portable_names_of_dirname _ Hport) as Hshort.
  assert (check_path path = Ok ()) as Hcheck
    by (apply portable_check; [done|by destruct path]).
  assert (too_long (basename path) = false) as Hlong.
  { apply portable_inv in Hport as (_ & _ & Hnames).
    by apply Hnames, basename_in_names. }
  unfold way in Hclear. rewrite <- located_names in Hclear.
  destruct (mkwalk_ok _ _ _ Hadm Hclear) as (t1 & Hmk & Hdirs).
  rewrite located_names in Hdirs. fold (way w path) in Hdirs.
  pose proof (mkwalk_keeps_dirs _ _ _ _ _ _ Hmk Hstart) as Hstart1.
  pose proof (walk_dirs_visited _ _ _ Hshort Hstart1 Hdirs) as Hwalk.
  assert (t1 !! target w path ≠ Some Dir) as Hfree1.
  { destruct (mkwalk_frame _ _ _ _ _ Hmk (target w path)) as [->|(Hin & _)].
    - unfold is_dir in Hfree. unfold target in *.
      rewrite node_at_lookup in Hfree by (by destruct (directory w path)).
      by destruct (tree w !! _) as [[|?]|].
    - rewrite located_names in Hin. done. }
  set (im := PIL.mkImage "RGBA" (size, size) (0, 0, 0, 0) (icon_shapes size)).
  set (t2 := <[target w path := File (png_encode im)]> t1).
  assert (∀ k, is_dir t1 k = true → is_dir t2 k = true) as Hmono
    by (intros k; by apply is_dir_insert_file).
  assert (Forall (λ k, is_dir t2 k = true) (way w path)) as Hdirs2
    by (eapply Forall_impl; [exact Hdirs|done]).
  assert (is_dir t2 (directory w path) = true) as Hdirectory.
  { destruct (resolve_visited (origin w path) (names (dirname path)))
      as [Heq|Hin].
    - unfold directory. rewrite Heq. by apply Hmono.
    - by eapply (proj1 (Forall_forall _ _) Hdirs2). }
  eexists _, (mkWorld t2 (cwd w) (stdout w ++ confirmation size path)).
  split; [apply render_ok; lia|].
  assert (create_notification_bell_icon png_encode size path w
          = (Ok (), mkWorld t2 (cwd w) (stdout w ++ confirmation size path)))
    as Hrun.
  { rewrite run_unfold, makedirs_unfold, origin_dirname, render_ok by lia.
    rewrite Hdir, Hmk. cbn [fst snd]. unfold origin, with_tree.
    cbn [tree cwd stdout]. fold (origin w path).
    rewrite (open_target_ok _ _ _ Hcheck Hbase Hdots Hlong Hwalk Hfree1).
    cbn zeta. by rewrite canvas_has_pixels. }
  split; [exact Hrun|]. cbn [tree].
  split; [exact Hdirs2|]. split; [exact Hdirectory|]. split.
  - apply run_ok_inv in Hrun as (im' & t1' & Him & _ & _ & _ & Hw & _).
    rewrite render_ok in Him by lia. injection Him as <-.
    unfold read, origin. cbn [cwd tree] in *. fold (origin w path).
    by eapply read_after_write.
  - exists (mkWorld t2 (cwd w)
              ((stdout w ++ confirmation size path) ++ confirmation size path)).
    split; [|reflexivity].
    rewrite run_unfold, makedirs_unfold, origin_dirname, render_ok by lia.
    rewrite Hdir. unfold origin. cbn [tree cwd stdout]. fold (origin w path).
    rewrite (mkwalk_existing _ _ _ Hadm)
      by (rewrite located_names; exact Hdirs2).
    cbn [fst snd with_tree tree cwd stdout]. fold (origin w path).
    rewrite (open_target_ok t2 (origin w path) path); [| done..| |].
    + cbn zeta. rewrite canvas_has_pixels by done.
      fold (directory w path) (target w path). unfold t2.
      by rewrite insert_insert_eq.
    + apply walk_dirs_visited; [done|by apply Hmono|done].
    + fold (directory w path) (target w path). unfold t2.
      by rewrite lookup_insert_eq.
Qed.

End RendererProperties.

(** ** The properties at the script's own arguments *)

Lemma effects_are_files_and_console_witness :
  let w' := snd (main toy_encode project_world) in
  cwd w' = cwd project_world
  ∧ stdout w' = stdout project_world ++
      (if succeeded (Ok ())
       then [ "Icon generated: " +:+ "resources/icon.png";
              "Size: " +:+ pretty 1024 +:+ "x" +:+ pretty 1024 +:+ " pixels" ]
       else [])
  ∧ ∀ k, tree w' !! k = tree project_world !! k
         ∨ (k ∈ way project_world "resources/icon.png"
            ∧ tree project_world !! k = None ∧ tree w' !! k = Some Dir)
         ∨ (k = target project_world "resources/icon.png"
            ∧ (succeeded (Ok ()) = true ∨ 1024 = 0)
            ∧ ∃ im, render 1024 = Ok im
                    ∧ tree w' !! k = Some (File (toy_encode im))).
Proof.
  apply (effects_are_files_and_console toy_encode 1024 "resources/icon.png"
           project_world (Ok ())).
  vm_compute. reflexivity.
Defined.

Lemma bare_filename_fails_witness :
  dirname "icon.png" = EmptyString
  ∧ makedirs (dirname "icon.png") project_world
    = (Raise FileNotFoundError, project_world)
  ∧ ∃ e, create_notification_bell_icon toy_encode 1024 "icon.png" project_world
         = (Raise e, project_world)
         ∧ (0 ≤ 1024 → e = FileNotFoundError).
Proof.
  apply (bare_filename_fails toy_encode 1024 "icon.png" project_world).
  reflexivity.
Defined.

Lemma creates_directory_and_succeeds_witness :
  ∃ im w',
    render 1024 = Ok im
    ∧ main toy_encode project_world = (Ok (), w')
    ∧ Forall (λ k, is_dir (tree w') k = true)
        (way project_world "resources/icon.png")
    ∧ is_dir (tree w') (directory project_world "resources/icon.png") = true
    ∧ read w' "resources/icon.png" = Ok (toy_encode im)
    ∧ ∃ w'', main toy_encode w' = (Ok (), w'') ∧ tree w'' = tree w'.
Proof.
  apply (creates_directory_and_succeeds toy_encode 1024 "resources/icon.png"
           project_world).
  - lia.
  - reflexivity.
  - reflexivity.
  - reflexivity.
  - reflexivity.
  - reflexivity.
  - reflexivity.
  - rewrite list_elem_of_In. vm_compute. intros [H|[]]. discriminate H.
  - reflexivity.
Defined.

(** C7 as stated fails.  In the project directory, which exists, the bare
    file name [icon.png] makes the call raise.  Where [resources] is a
    regular file, so that the directory of the default path does not
    exist, the default call raises instead of creating it.  For the path
    [resources/] the missing directory is created but the call still
    raises, because the path names that directory.  A NUL character in
    the file name makes the save raise after the directory is created,
    and a directory name of 256 bytes is refused by the file system. *)
Lemma some_paths_do_not_succeed :
  is_dir (tree project_world) (directory project_world "icon.png") = true
  ∧ create_notification_bell_icon toy_encode 1024 "icon.png" project_world
    = (Raise FileNotFoundError, project_world)
  ∧ is_dir (tree blocked_world) (directory blocked_world "resources/icon.png")
    = false
  ∧ main toy_encode blocked_world = (Raise FileExistsError, blocked_world)
  ∧ is_dir (tree project_world) (directory project_world "resources/") = false
  ∧ create_notification_bell_icon toy_encode 1024 "resources/" project_world
    = (Raise IsADirectoryError,
       with_tree project_world
         (<[ ["project"; "resources"] := Dir ]> (tree project_world)))
  ∧ create_notification_bell_icon toy_encode 1024 nul_path project_world
    = (Raise ValueError,
       with_tree project_world
         (<[ ["project"; "resources"] := Dir ]> (tree project_world)))
  ∧ create_notification_bell_icon toy_encode 1024 long_path project_world
    = (Raise OSError, project_world).
Proof. split_and!; vm_compute; reflexivity. Qed.

(** * Further properties of the renderer *)

(** ** Shape of the icon *)

Ltac by_coordinates :=
  repeat (apply (f_equal2 (@cons PIL.point))
          || apply (f_equal2 (@pair PIL.point PIL.point))
          || apply (f_equal2 (@pair Z Z)));
  try reflexivity; try floor_arith.

(** X1: the bell is symmetric about the vertical line through the centre:
    each of the four primitives painted white (body, handle, rim and
    clapper) is its own mirror image. *)
Theorem white_shapes_are_symmetric size :
  0 ≤ size →
  ∃ im, render size = Ok im
        ∧ Forall (λ s, shape_fill s = white → symmetric size s) (PIL.drawn im)
        ∧ length (filter (λ s, shape_fill s = white) (PIL.drawn im)) = 4%nat.
Proof.
  intros Hsize. eexists. split; [by apply render_ok|]. split; [|done].
  cbn [PIL.drawn icon_shapes].
  repeat apply Forall_cons_2; try apply Forall_nil_2; try discriminate;
    intros _; cbn [symmetric].
  - exists 2%nat. unfold bell_points.
    assert (∀ a b c d : PIL.point, rotate 2 [a; b; c; d] = [c; d; a; b])
      as -> by reflexivity.
    assert (∀ a b c d : PIL.point, reverse [a; b; c; d] = [d; c; b; a])
      as Hrev by reflexivity.
    cbn [map]. rewrite Hrev. unfold mirror_point. cbn [fst snd].
    by_coordinates.
  - unfold mirror_box, handle_box. cbn [fst snd]. by_coordinates.
  - unfold mirror_box, rim_box. cbn [fst snd]. by_coordinates.
  - unfold mirror_box, clapper_box. cbn [fst snd]. by_coordinates.
Qed.

(** X2: none of the eight dimensions shrinks when the size grows. *)
Theorem dimensions_are_monotone (dim : Z → Z) (size size' : Z) :
  dim ∈ dimensions → size ≤ size' → dim size ≤ dim size'.
Proof.
  unfold dimensions. rewrite !elem_of_cons, elem_of_nil.
  intros [->|[->|[->|[->|[->|[->|[->|[->|[]]]]]]]]] Hle; floor_arith.
Qed.

(** X3: the body is a trapezoid: its top and bottom edges are horizontal,
    the top edge is not below the bottom edge and lies within its span,
    and it overhangs by the same amount on both sides. *)
Theorem body_is_trapezoid size :
  0 ≤ size →
  ∃ tl tr br bl,
    bell_points size = [tl; tr; br; bl]
    ∧ snd tl = snd tr ∧ snd bl = snd br ∧ snd tl ≤ snd bl
    ∧ fst bl ≤ fst tl ∧ fst tl ≤ fst tr ∧ fst tr ≤ fst br
    ∧ fst tl - fst bl = fst br - fst tr.
Proof.
  intros Hsize. unfold bell_points. do 4 eexists. split; [reflexivity|].
  cbn [fst snd]. split_and!; floor_arith.
Qed.

(** X4: the parts of the bell fit together: the handle stands on the
    body's top edge and within it, the rim starts at the body's bottom
    edge and has exactly its span, and the clapper hangs one rim height
    below the rim, within its span. *)
Theorem parts_are_joined size :
  0 ≤ size →
  ∃ tl tr br bl,
    bell_points size = [tl; tr; br; bl]
    (* the handle stands on the top edge, inside it *)
    ∧ snd (snd (handle_box size)) = snd tl
    ∧ snd (snd (handle_box size)) - snd (fst (handle_box size))
      = handle_height size
    ∧ fst tl ≤ fst (fst (handle_box size))
    ∧ fst (snd (handle_box size)) ≤ fst tr
    (* the rim hangs from the bottom edge, with the same span *)
    ∧ fst (rim_box size) = bl
    ∧ (fst (snd (rim_box size)), snd (fst (rim_box size))) = br
    ∧ snd (snd (rim_box size)) - snd (fst (rim_box size)) = rim_height size
    (* the clapper hangs one rim height below the rim, inside its span *)
    ∧ snd (fst (clapper_box size)) - snd (snd (rim_box size)) = rim_height size
    ∧ fst (fst (rim_box size)) ≤ fst (fst (clapper_box size))
    ∧ fst (snd (clapper_box size)) ≤ fst (snd (rim_box size)).
Proof.
  intros Hsize. unfold bell_points. do 4 eexists. split; [reflexivity|].
  unfold handle_box, rim_box, clapper_box. cbn [fst snd].
  split_and!; try reflexivity; floor_arith.
Qed.

Lemma scale_point_mul k j p :
  scale_point (k * j) p = scale_point k (scale_point j p).
Proof. unfold scale_point. cbn [fst snd]. f_equal; lia. Qed.

Lemma scale_shape_mul k j s :
  scale_shape (k * j) s = scale_shape k (scale_shape j s).
Proof.
  destruct s as [b r f|pts f|b f|b f]; cbn [scale_shape]; unfold scale_box;
    cbn [fst snd]; rewrite ?scale_point_mul; try reflexivity.
  - f_equal. lia.
  - f_equal. rewrite map_map. apply map_ext. intros p. apply scale_point_mul.
Qed.

Lemma icon_shapes_360 j :
  icon_shapes (360 * j) = map (scale_shape j) (icon_shapes 360).
Proof.
  let base := eval vm_compute in (icon_shapes 360) in
  change (icon_shapes 360) with base.
  unfold icon_shapes. cbn [map scale_shape].
  unfold scale_box, scale_point, background_box, handle_box, rim_box,
    clapper_box, dot_box, bell_points. cbn [fst snd map].
  repeat (apply (f_equal2 (@cons PIL.shape)));
    try reflexivity; f_equal; by_coordinates.
Qed.

(** X5: for a size that is a multiple of 360 no division rounds, so
    enlarging the size by a factor enlarges every coordinate and the
    corner radius of every primitive by exactly that factor. *)
Theorem multiples_of_360_scale_exactly size k :
  0 ≤ size → 0 ≤ k → (360 | size) →
  ∃ im imk,
    render size = Ok im ∧ render (k * size) = Ok imk
    ∧ PIL.drawn imk = map (scale_shape k) (PIL.drawn im).
Proof.
  intros Hsize Hk [j ->]. do 2 eexists.
  split; [by apply render_ok|]. split; [apply render_ok; lia|].
  cbn [PIL.drawn]. replace (k * (j * 360)) with (360 * (k * j)) by lia.
  replace (j * 360) with (360 * j) by lia.
  rewrite !icon_shapes_360, map_map. apply map_ext. intros s.
  apply scale_shape_mul.
Qed.

(** X6: the coordinates of every primitive are spread over a positive
    width and a positive height exactly when the size is at least 45;
    below that the rim is given zero height. *)
Theorem every_shape_has_extent_iff size :
  0 ≤ size →
  ∃ im, render size = Ok im
        ∧ (forallb has_extent (PIL.drawn im) = true ↔ 45 ≤ size).
Proof.
  intros Hsize. eexists. split; [by apply render_ok|].
  cbn [PIL.drawn icon_shapes forallb]. unfold has_extent.
  cbn [PIL.coordinates background_box handle_box rim_box clapper_box dot_box
       bell_points map fst snd extent fold_right].
  rewrite !andb_true_iff, !Z.ltb_lt. split.
  - intros (_ & _ & _ & [_ Hrim] & _). floor_arith.
  - intros Hbig. split_and!; try done; floor_arith.
Qed.

(** ** Outcomes of the call *)

Lemma is_file_not_file (t : gmap location node) (ks : list location) :
  Forall (not_file t) ks → forallb (λ k, negb (is_file t k)) ks = true.
Proof.
  rewrite forallb_forall, Forall_forall. intros H k Hk%list_elem_of_In.
  specialize (H k Hk). unfold not_file in H. unfold is_file.
  destruct (node_at t k) as [[|d]|]; [done| |done]. by destruct (H d).
Qed.

Lemma mkwalk_error_blocked ns t cur e t' :
  Forall (λ e, accepted e = true) ns →
  mkwalk t cur ns = (Raise e, t') →
  forallb (λ k, negb (is_file t k)) (visited cur ns.*1) = false.
Proof.
  intros Hadm Hrun. destruct (forallb _ _) eqn:Hclear; [|done].
  apply not_file_is_file in Hclear.
  destruct (mkwalk_ok _ _ _ Hadm Hclear) as (t1 & Hok & _). congruence.
Qed.

Lemma visited_removelast (P : location → Prop) ns : ∀ cur,
  Forall P (visited cur ns) → Forall P (visited cur (removelast ns)).
Proof.
  induction ns as [|n rest IH]; intros cur Hall; [done|].
  cbn [removelast]. destruct rest as [|n' rest']; [constructor|].
  cbn [visited] in *. apply Forall_cons in Hall as [Hhead Hrest].
  apply Forall_cons. split; [done|]. by apply IH.
Qed.

Lemma Forall_removelast {A} (P : A → Prop) (l : list A) :
  Forall P l → Forall P (removelast l).
Proof.
  induction l as [|x rest IH]; [done|]. intros [Hx Hrest]%Forall_cons.
  cbn [removelast]. destruct rest; [constructor|].
  apply Forall_cons. split; [done|]. by apply IH.
Qed.

(** Once every location on the way is a directory, the opening of a path
    that the file system takes can only fail because the path names a
    directory. *)
Lemma open_target_after_guard t start p :
  portable p = true → nonempty p = true → is_dir t start = true →
  Forall (λ k, is_dir t k = true) (visited start (names (dirname p))) →
  let file := resolve start (names (dirname p)) ++ [basename p] in
  open_target t start p =
    if nonempty (basename p) && negb (is_dots (basename p))
       && negb (is_dir t file)
    then Ok file else Raise IsADirectoryError.
Proof.
  intros Hport Hp Hstart Hdirs file. unfold open_target.
  rewrite (portable_check _ Hport Hp). cbn [mbind result_bind].
  pose proof (portable_names_of_dirname _ Hport) as Hshort.
  destruct (nonempty (basename p)) eqn:Hb; cbn [andb].
  - destruct (names_split _ Hb) as [-> ->].
    rewrite (walk_dirs_visited _ _ _ Hshort Hstart Hdirs).
    cbn [mbind result_bind negb orb]. fold file.
    destruct (is_dots (basename p)); cbn [negb andb]; [done|].
    assert (too_long (basename p) = false) as ->.
    { apply portable_inv in Hport as (_ & _ & Hnames).
      by apply Hnames, basename_in_names. }
    unfold is_dir. rewrite node_at_lookup by (by destruct (resolve _ _)).
    by destruct (t !! file) as [[|d]|].
  - assert (names p = names (dirname p)) as Hnames
      by (by rewrite (names_dirname p), Hb, app_nil_r).
    rewrite Hnames.
    rewrite (walk_dirs_visited _ _ _ (Forall_removelast _ _ Hshort) Hstart
               (visited_removelast _ _ _ Hdirs)).
    cbn [mbind result_bind]. by destruct (last _).
Qed.

Section MoreRendererProperties.

Variable png_encode : PIL.Image → list Byte.byte.

(** X7: a negative size is refused before anything else happens: whatever
    the path and the file tree, the call raises [ValueError] and the world
    is as it was, with no directory made, no file touched and nothing
    printed. *)
Theorem negative_size_is_refused_first size path w :
  size < 0 →
  create_notification_bell_icon png_encode size path w = (Raise ValueError, w).
Proof. intros Hneg. by rewrite run_unfold, render_negative. Qed.

(** X8: why a call fails that has a positive size and a path the file
    system takes, and is started in an existing directory.
    [FileNotFoundError]: the path has no separator, and nothing was
    touched.  [FileExistsError] or [NotADirectoryError]: a regular file is
    on the way to the output directory.  Otherwise the directories were
    all made, and the save raises [IsADirectoryError] because the path
    ends in a separator, in [.] or [..], or names a directory. *)
Theorem failure_causes size path w e w' :
  0 < size → portable path = true →
  is_dir (tree w) (origin w path) = true →
  create_notification_bell_icon png_encode size path w = (Raise e, w') →
  (e = FileNotFoundError ∧ has_sep path = false ∧ w' = w)
  ∨ ((e = FileExistsError ∨ e = NotADirectoryError) ∧ has_sep path = true
     ∧ forallb (λ k, negb (is_file (tree w) k)) (way w path) = false)
  ∨ (e = IsADirectoryError ∧ has_sep path = true
     ∧ Forall (λ k, is_dir (tree w') k = true) (way w path)
     ∧ (nonempty (basename path) = false ∨ is_dots (basename path) = true
        ∨ is_dir (tree w') (target w path) = true)).
Proof.
  intros Hsize Hport Hstart.
  rewrite run_unfold, makedirs_unfold, origin_dirname, render_ok by lia.
  destruct (has_sep path) eqn:Hsep.
  2:{ apply dirname_empty in Hsep. rewrite Hsep. cbn [nonempty].
      intros [= <- <-]. by left. }
  assert (nonempty (dirname path) = true) as Hdir.
  { destruct (dirname path) eqn:E; [|done].
    apply dirname_empty in E. congruence. }
  pose proof (portable_dirname _ Hport) as Hadm.
  rewrite Hdir. destruct (mkwalk _ _ _) as [[[]|e1] t1] eqn:Hmk; cbn [fst snd].
  - apply mkwalk_ok_inv in Hmk as Hinv. destruct Hinv as [_ Hdirs].
    rewrite located_names in Hdirs. fold (way w path) in Hdirs.
    pose proof (mkwalk_keeps_dirs _ _ _ _ _ _ Hmk Hstart) as Hstart1.
    change (origin (with_tree w t1) path) with (origin w path).
    cbn [with_tree tree cwd stdout].
    rewrite open_target_after_guard; [|done|by destruct path|done..].
    fold (directory w path) (target w path).
    destruct (nonempty (basename path)); cbn [andb];
      [|intros [= <- <-]; right; right; cbn [tree]; auto].
    destruct (is_dots (basename path)); cbn [negb andb];
      [intros [= <- <-]; right; right; cbn [tree]; auto 6|].
    destruct (is_dir t1 (target w path)) eqn:Htarget; cbn [negb].
    + intros [= <- <-]. right; right. cbn [tree]. auto 6.
    + cbn zeta. by rewrite canvas_has_pixels.
  - intros [= <- <-]. right; left. split_and!; [|done|].
    + by eapply mkwalk_error_kinds.
    + unfold way. rewrite <- located_names. by eapply mkwalk_error_blocked.
Qed.

(** X9: a call succeeds only if the size is not negative, the path has a
    directory part and a proper file name, no regular file is on the way
    and the path does not name a directory, be it an existing one or one
    the call has to create. *)
Theorem success_conditions_are_necessary size path w w' :
  create_notification_bell_icon png_encode size path w = (Ok (), w') →
  0 ≤ size
  ∧ nonempty (dirname path) = true
  ∧ nonempty (basename path) = true ∧ is_dots (basename path) = false
  ∧ forallb (λ k, negb (is_file (tree w) k)) (way w path) = true
  ∧ (target w path ∉ way w path)
  ∧ is_dir (tree w) (target w path) = false.
Proof.
  intros (im & t1 & Him & _ & Hdir & Hmk & Hw & _)%run_ok_inv.
  apply write_file_inv in Hw as (Hb & Hdots & Hwalk & Hfree & _).
  cbn zeta in *. fold (directory w path) (target w path) in Hfree.
  destruct (mkwalk_ok_inv _ _ _ _ Hmk) as [Hclear Hdirs].
  rewrite located_names in Hclear, Hdirs.
  fold (way w path) in Hclear, Hdirs.
  assert (is_dir t1 (target w path) = false) as Hfree1.
  { unfold is_dir, target.
    rewrite node_at_lookup by (by destruct (directory w path)).
    fold (target w path). by destruct (t1 !! target w path) as [[|d]|]. }
  split_and!; [|done..| | |].
  - destruct (Z.lt_ge_cases size 0) as [Hneg|]; [|done].
    by rewrite render_negative in Him.
  - by apply is_file_not_file.
  - intros Hin. apply (proj1 (Forall_forall _ _) Hdirs) in Hin. congruence.
  - destruct (is_dir (tree w) (target w path)) eqn:E; [|done].
    apply (mkwalk_keeps_dirs _ _ _ _ _ _ Hmk) in E. congruence.
Qed.

Lemma kept_nodes (t t' : gmap location node) (k : location) (P : Prop) :
  (∀ n, t !! k = Some n → t' !! k = Some n) →
  (t !! k = Some Dir → t' !! k = Some Dir)
  ∧ (∀ d, t !! k = Some (File d) → ∃ d', t' !! k = Some (File d'))
  ∧ (∀ d, t !! k = Some (File d) → P → t' !! k = Some (File d)).
Proof.
  intros H.
  split_and!; [by intros ?%H|intros d ?%H; by exists d|by intros d ?%H _].
Qed.

(** X10: the call removes nothing: whatever its outcome, a directory stays
    a directory and a file stays a file; every file other than the output
    file keeps its content, and so does the output file when a call with
    a size other than 0 fails. *)
Theorem nothing_is_lost size path w r w' k :
  create_notification_bell_icon png_encode size path w = (r, w') →
  (tree w !! k = Some Dir → tree w' !! k = Some Dir)
  ∧ (∀ d, tree w !! k = Some (File d) → ∃ d', tree w' !! k = Some (File d'))
  ∧ (∀ d, tree w !! k = Some (File d) →
          (k ≠ target w path ∨ (succeeded r = false ∧ size ≠ 0)) →
          tree w' !! k = Some (File d)).
Proof.
  rewrite run_unfold, makedirs_unfold, origin_dirname.
  destruct (Z.lt_ge_cases size 0) as [Hneg|Hsize].
  { rewrite render_negative by done. intros [= <- <-]. by apply kept_nodes. }
  rewrite render_ok by done.
  set (im := PIL.mkImage "RGBA" (size, size) (0, 0, 0, 0) (icon_shapes size)).
  destruct (nonempty (dirname path)); [|intros [= <- <-]; by apply kept_nodes].
  destruct (mkwalk _ _ _) as [r1 t1] eqn:Hmk. cbn [fst snd].
  assert (∀ n, tree w !! k = Some n → t1 !! k = Some n) as Hkeep.
  { intros n Hn.
    destruct (mkwalk_frame _ _ _ _ _ Hmk k) as [->|(_ & Hnone & _)];
      congruence. }
  destruct r1 as [[]|e]; [|intros [= <- <-]; cbn [with_tree tree]; by apply kept_nodes].
  change (origin (with_tree w t1) path) with (origin w path).
  cbn [with_tree tree cwd stdout].
  destruct (open_target _ _ _) as [k0|e] eqn:Hw;
    [|intros [= <- <-]; cbn [tree]; by apply kept_nodes].
  apply open_target_inv in Hw as (_ & _ & _ & _ & _ & -> & Hfree).
  cbn zeta in *. fold (directory w path) (target w path) in *.
  assert (∀ w2 : world,
            tree w2 = <[target w path := File (png_encode im)]> t1 →
            (tree w !! k = Some Dir → tree w2 !! k = Some Dir)
            ∧ (∀ d, tree w !! k = Some (File d) →
                    ∃ d', tree w2 !! k = Some (File d'))
            ∧ (∀ d, tree w !! k = Some (File d) → k ≠ target w path →
                    tree w2 !! k = Some (File d))) as Hwritten.
  { intros w2 ->. split_and!.
    - intros Hk%Hkeep. rewrite lookup_insert_ne; [done|]. congruence.
    - intros d Hk%Hkeep. destruct (decide (k = target w path)) as [->|Hne].
      + rewrite lookup_insert_eq. eauto.
      + rewrite lookup_insert_ne by done. eauto.
    - intros d Hk%Hkeep Hne. by rewrite lookup_insert_ne. }
  destruct (PIL.is_empty im) eqn:Hempty.
  - assert (size = 0) as Hzero.
    { destruct (decide (size = 0)) as [|Hne]; [done|].
      unfold im in Hempty. rewrite canvas_has_pixels in Hempty by lia. done. }
    intros [= <- <-]. cbn [succeeded].
    destruct (t1 !! target w path) as [old|] eqn:Hold.
    + destruct (Hwritten (mkWorld (<[target w path := File (png_encode im)]> t1)
                            (cwd w) (stdout w)) eq_refl) as (H1 & H2 & H3).
      split_and!; [done..|]. intros d Hd [Hne|[_ Hnz]]; [by apply H3|done].
    + cbn [tree]. by apply kept_nodes.
  - intros [= <- <-]. cbn [succeeded].
    destruct (Hwritten (mkWorld (<[target w path := File (png_encode im)]> t1)
                          (cwd w) (stdout w ++ confirmation size path)) eq_refl)
      as (H1 & H2 & H3).
    split_and!; [done..|]. intros d Hd [Hne|[Hf _]]; [by apply H3|done].
Qed.

End MoreRendererProperties.

(** ** The further properties on examples *)

Lemma white_shapes_are_symmetric_witness :
  ∃ im, render 1024 = Ok im
        ∧ Forall (λ s, shape_fill s = white → symmetric 1024 s) (PIL.drawn im)
        ∧ length (filter (λ s, shape_fill s = white) (PIL.drawn im)) = 4%nat.
Proof. apply (white_shapes_are_symmetric 1024). lia. Defined.

Lemma dimensions_are_monotone_witness : rim_height 1000 ≤ rim_height 1024.
Proof.
  apply (dimensions_are_monotone rim_height 1000 1024).
  - unfold dimensions. do 5 apply list_elem_of_further. apply list_elem_of_here.
  - lia.
Defined.

Lemma doubling_within_one_pixel_witness :
  0 ≤ handle_width (2 * 1024) - 2 * handle_width 1024 ≤ 1.
Proof.
  apply (doubling_within_one_pixel handle_width 1024).
  unfold dimensions. do 3 apply list_elem_of_further. apply list_elem_of_here.
Defined.

Lemma body_is_trapezoid_witness :
  ∃ tl tr br bl,
    bell_points 1024 = [tl; tr; br; bl]
    ∧ snd tl = snd tr ∧ snd bl = snd br ∧ snd tl ≤ snd bl
    ∧ fst bl ≤ fst tl ∧ fst tl ≤ fst tr ∧ fst tr ≤ fst br
    ∧ fst tl - fst bl = fst br - fst tr.
Proof. apply (body_is_trapezoid 1024). lia. Defined.

Lemma parts_are_joined_witness :
  ∃ tl tr br bl,
    bell_points 1024 = [tl; tr; br; bl]
    ∧ snd (snd (handle_box 1024)) = snd tl
    ∧ snd (snd (handle_box 1024)) - snd (fst (handle_box 1024))
      = handle_height 1024
    ∧ fst tl ≤ fst (fst (handle_box 1024))
    ∧ fst (snd (handle_box 1024)) ≤ fst tr
    ∧ fst (rim_box 1024) = bl
    ∧ (fst (snd (rim_box 1024)), snd (fst (rim_box 1024))) = br
    ∧ snd (snd (rim_box 1024)) - snd (fst (rim_box 1024)) = rim_height 1024
    ∧ snd (fst (clapper_box 1024)) - snd (snd (rim_box 1024))
      = rim_height 1024
    ∧ fst (fst (rim_box 1024)) ≤ fst (fst (clapper_box 1024))
    ∧ fst (snd (clapper_box 1024)) ≤ fst (snd (rim_box 1024)).
Proof. apply (parts_are_joined 1024). lia. Defined.

Lemma multiples_of_360_scale_exactly_witness :
  ∃ im imk,
    render 720 = Ok im ∧ render (3 * 720) = Ok imk
    ∧ PIL.drawn imk = map (scale_shape 3) (PIL.drawn im).
Proof.
  apply (multiples_of_360_scale_exactly 720 3).
  - lia.
  - lia.
  - exists 2. reflexivity.
Defined.

Lemma every_shape_has_extent_iff_witness :
  ∃ im, render 44 = Ok im
        ∧ (forallb has_extent (PIL.drawn im) = true ↔ 45 ≤ 44).
Proof. apply (every_shape_has_extent_iff 44). lia. Defined.

Lemma negative_size_is_refused_first_witness :
  create_notification_bell_icon toy_encode (-1) "resources/icon.png"
    project_world = (Raise ValueError, project_world).
Proof.
  apply (negative_size_is_refused_first toy_encode (-1) "resources/icon.png"
           project_world).
  lia.
Defined.

Lemma failure_causes_witness :
  (FileExistsError = FileNotFoundError
   ∧ has_sep "resources/icon.png" = false ∧ blocked_world = blocked_world)
  ∨ ((FileExistsError = FileExistsError ∨ FileExistsError = NotADirectoryError)
     ∧ has_sep "resources/icon.png" = true
     ∧ forallb (λ k, negb (is_file (tree blocked_world) k))
         (way blocked_world "resources/icon.png") = false)
  ∨ (FileExistsError = IsADirectoryError
     ∧ has_sep "resources/icon.png" = true
     ∧ Forall (λ k, is_dir (tree blocked_world) k = true)
         (way blocked_world "resources/icon.png")
     ∧ (nonempty (basename "resources/icon.png") = false
        ∨ is_dots (basename "resources/icon.png") = true
        ∨ is_dir (tree blocked_world)
            (target blocked_world "resources/icon.png") = true)).
Proof.
  apply (failure_causes toy_encode 1024 "resources/icon.png" blocked_world
           FileExistsError blocked_world).
  - lia.
  - reflexivity.
  - reflexivity.
  - vm_compute. reflexivity.
Defined.

Lemma success_conditions_are_necessary_witness :
  0 ≤ 1024
  ∧ nonempty (dirname "resources/icon.png") = true
  ∧ nonempty (basename "resources/icon.png") = true
  ∧ is_dots (basename "resources/icon.png") = false
  ∧ forallb (λ k, negb (is_file (tree project_world) k))
      (way project_world "resources/icon.png") = true
  ∧ (target project_world "resources/icon.png"
     ∉ way project_world "resources/icon.png")
  ∧ is_dir (tree project_world) (target project_world "resources/icon.png")
    = false.
Proof.
  apply (success_conditions_are_necessary toy_encode 1024 "resources/icon.png"
           project_world (snd (main toy_encode project_world))).
  vm_compute. reflexivity.
Defined.

Lemma nothing_is_lost_witness :
  let w' := snd (main toy_encode stocked_world) in
  let k := ["project"; "notes.txt"] in
  (tree stocked_world !! k = Some Dir → tree w' !! k = Some Dir)
  ∧ (∀ d, tree stocked_world !! k = Some (File d) →
          ∃ d', tree w' !! k = Some (File d'))
  ∧ (∀ d, tree stocked_world !! k = Some (File d) →
          (k ≠ target stocked_world "resources/icon.png"
           ∨ (succeeded (Ok ()) = false ∧ 1024 ≠ 0)) →
          tree w' !! k = Some (File d)).
Proof.
  apply (nothing_is_lost toy_encode 1024 "resources/icon.png" stocked_world
           (Ok ())).
  vm_compute. reflexivity.
Defined.
